(** * Sound visualisation web application: the audio-to-image pipeline

    A shallow embedding of [web_app.py]: image preparation
    ([process_image]), the amplitude encoder ([adjust_brightness],
    [draw_horz_sound], [encode_image]), the input checks of [load_image]
    and the frame sequencing of [visualize_youtube_video].

    Conventions.
    - Python floats and [np.float64] scalars are IEEE binary64 values,
      modelled by [spec_float] with the operations of [SpecFloat] at
      precision 53 (module [F64]); nothing is computed over the reals.
    - [np.uint8] channel values are integers in [0, 256); arithmetic on
      them wraps modulo 256 as numpy's does.
    - Python exceptions and Streamlit's [st.stop()] are the left summand of
      the [result] type.
    - OpenCV, PIL, pydub and moviepy are libraries outside the repository:
      what the code needs from them is a field of an interface class
      ([OpenCV], [AudioSegment], ...), and the theorems hold for every
      instance. *)

From Stdlib Require Import ZArith Bool List Lia SpecFloat.
From stdpp Require Import base option list gmap.
From Equations Require Import Equations.
Import ListNotations.

Local Open Scope Z_scope.

(** ** Outcomes of Python code *)

Inductive exn : Type :=
| ValueError          (* max() of an empty sequence, round(nan), a shape mismatch *)
| OverflowError       (* round(inf) *)
| ZeroDivisionError   (* float division by zero *)
| IndexError          (* tuple index out of range *)
| TypeError           (* an operand that is not an array of the expected kind *)
| cv2_error           (* an OpenCV assertion, an argument OpenCV cannot parse *)
| OSError             (* a file that cannot be written or read back *)
| StopException.      (* st.warning(...) followed by st.stop() *)

Inductive result (A : Type) : Type :=
| Ok (a : A)
| Raise (e : exn).
Arguments Ok {A} a.
Arguments Raise {A} e.

Global Instance result_ret : MRet result := fun A a => Ok a.

Global Instance result_bind : MBind result := fun A B k m =>
  match m with
  | Ok a => k a
  | Raise e => Raise e
  end.

Global Instance result_fmap : FMap result := fun A B f m =>
  match m with
  | Ok a => Ok (f a)
  | Raise e => Raise e
  end.

Definition is_Ok {A : Type} (m : result A) : Prop := exists a, m = Ok a.

(** ** Binary64 arithmetic *)

Module F64.

Definition prec : Z := 53.
Definition emax : Z := 1024.

Definition float : Type := spec_float.

Definition add : float -> float -> float := SFadd prec emax.
Definition sub : float -> float -> float := SFsub prec emax.
Definition mul : float -> float -> float := SFmul prec emax.
Definition div : float -> float -> float := SFdiv prec emax.
Definition opp : float -> float := SFopp.
Definition abs : float -> float := SFabs.
Definition ltb : float -> float -> bool := SFltb.
Definition leb : float -> float -> bool := SFleb.

Definition is_nan (x : float) : bool :=
  match x with S754_nan => true | _ => false end.

Definition is_zero (x : float) : bool :=
  match x with S754_zero _ => true | _ => false end.

(** [float(n)] for a Python int (correctly rounded). *)
Definition of_Z (n : Z) : float := binary_normalize prec emax n 0 false.

(** A decimal literal [n/d], read by correct rounding as Python reads it:
    the binary64 division of two exactly represented integers. *)
Definition literal (n d : Z) : float := div (of_Z n) (of_Z d).

(** A well-formed binary64 datum that is not NaN. *)
Definition is_number (x : float) : Prop :=
  valid_binary prec emax x = true /\ is_nan x = false.

(** [int(x)] and [np.uint8]-style conversion: truncation toward zero. *)
Definition trunc (x : float) : Z :=
  match x with
  | S754_finite s m e =>
      let n := match e with
               | Zneg k => Z.shiftr (Zpos m) (Zpos k)
               | _ => Z.shiftl (Zpos m) e
               end in
      if s then - n else n
  | _ => 0
  end.

(** [math.ceil(x)] on a finite value. *)
Definition ceil (x : float) : Z :=
  match x with
  | S754_finite s m e =>
      match e with
      | Zneg k =>
          let q := Z.shiftr (Zpos m) (Zpos k) in
          let exact := Z.eqb (Z.shiftl q (Zpos k)) (Zpos m) in
          if s then - q else if exact then q else q + 1
      | _ => let n := Z.shiftl (Zpos m) e in if s then - n else n
      end
  | _ => 0
  end.

(** [round(x)]: to the nearest integer, ties to even; Python raises
    [ValueError] on NaN and [OverflowError] on an infinity. *)
Definition round (x : float) : result Z :=
  match x with
  | S754_nan => Raise ValueError
  | S754_infinity _ => Raise OverflowError
  | S754_zero _ => Ok 0
  | S754_finite s m e =>
      let n :=
        match e with
        | Zneg k =>
            let q := Z.shiftr (Zpos m) (Zpos k) in
            let r := Zpos m - Z.shiftl q (Zpos k) in
            match Z.compare (2 * r) (Z.shiftl 1 (Zpos k)) with
            | Lt => q
            | Gt => q + 1
            | Eq => if Z.even q then q else q + 1
            end
        | _ => Z.shiftl (Zpos m) e
        end in
      Ok (if s then - n else n)
  end.

End F64.

Abbreviation float := F64.float.

(** The literals of the source. *)
Definition f_0_3 : float := Eval vm_compute in F64.literal 3 10.
Definition f_0_7 : float := Eval vm_compute in F64.literal 7 10.
Definition f_0_15 : float := Eval vm_compute in F64.literal 15 100.
Definition f_0_5 : float := Eval vm_compute in F64.literal 1 2.
Definition f_1_0 : float := Eval vm_compute in F64.of_Z 1.
Definition f_0_4 : float := Eval vm_compute in F64.literal 4 10.
Definition f_0_0 : float := S754_zero false.

(** ** Python and numpy primitives on scalars *)

(** [max(xs, key=abs)]: [max] keeps the running best and replaces it only
    when a later key is strictly greater. *)
Fixpoint max_key_abs_from (best : float) (xs : list float) : float :=
  match xs with
  | [] => best
  | x :: xs' =>
      if F64.ltb (F64.abs best) (F64.abs x)
      then max_key_abs_from x xs'
      else max_key_abs_from best xs'
  end.

Definition max_key_abs (xs : list float) : result float :=
  match xs with
  | [] => Raise ValueError
  | x :: xs' => Ok (max_key_abs_from x xs')
  end.

(** [np.maximum] and [np.minimum] on scalars: a NaN first operand
    propagates. *)
Definition np_maximum (a b : float) : float :=
  if F64.is_nan a || F64.ltb b a then a else b.

Definition np_minimum (a b : float) : float :=
  if F64.is_nan a || F64.ltb a b then a else b.

Definition np_clip (x lo hi : float) : float :=
  np_minimum (np_maximum x lo) hi.

(** Lines 117-122 of [encode_image]: the second argument handed to
    [adjust_brightness]. *)
Definition brightness_factor (amplitudes : list float) : result float :=
  max_val ← max_key_abs amplitudes;
  let max_val := np_clip max_val (F64.opp f_0_3) f_0_3 in
  let max_val := F64.opp max_val in
  Ok (F64.add max_val f_0_7).



(** ** An order key for magnitudes *)

(** The magnitude of a float that is not NaN, as a key ordered
    lexicographically: zero, then the finite values by exponent and
    mantissa, then infinity. *)
Definition abs_key (x : float) : Z * Z * Z :=
  match x with
  | S754_zero _ => (0, 0, 0)
  | S754_finite _ m e => (1, e, Zpos m)
  | S754_infinity _ => (2, 0, 0)
  | S754_nan => (3, 0, 0)
  end.

Definition key_lt (a b : Z * Z * Z) : Prop :=
  let '(c1, e1, m1) := a in
  let '(c2, e2, m2) := b in
  c1 < c2 \/ (c1 = c2 /\ (e1 < e2 \/ (e1 = e2 /\ m1 < m2))).


Definition no_nan (w : list float) : Prop :=
  Forall (fun x => F64.is_nan x = false) w.

(** [p] is the element of [w] of maximum absolute value, at its first
    occurrence: nothing in [w] exceeds it in magnitude and everything before
    it is strictly smaller. *)
Definition first_max_abs (w : list float) (p : float) : Prop :=
  exists i : nat,
    w !! i = Some p /\
    (forall (j : nat) (y : float), w !! j = Some y ->
       F64.leb (F64.abs y) (F64.abs p) = true) /\
    (forall (j : nat) (y : float), (j < i)%nat -> w !! j = Some y ->
       F64.ltb (F64.abs y) (F64.abs p) = true).

(** The least brightness factor: [0.7 - 0.3] as binary64 computes it,
    printed [0.39999999999999997] by Python. *)
Definition f_0_7_minus_0_3 : float := Eval vm_compute in F64.sub f_0_7 f_0_3.

(** ** Arrays *)

(** A [np.uint8] array of shape [(height, width, 3)] is a list of rows of
    pixels; a two-dimensional array is a list of rows of values. *)
Definition pixel : Type := Z * Z * Z.
Definition image : Type := list (list pixel).
Definition gray : Type := list (list Z).

Definition height {A : Type} (a : list (list A)) : Z := Z.of_nat (length a).

Definition width {A : Type} (a : list (list A)) : Z :=
  match a with
  | [] => 0
  | row :: _ => Z.of_nat (length row)
  end.

Definition has_shape {A : Type} (a : list (list A)) (h w : Z) : Prop :=
  height a = h /\ Forall (fun row => Z.of_nat (length row) = w) a.

Definition same_dims {A B : Type} (a : list (list A)) (b : list (list B)) : bool :=
  (height a =? height b) && (width a =? width b).

(** The array whose entry [(y, x)] is [f y x]. *)
Definition tabulate {A : Type} (h w : Z) (f : nat -> nat -> A) : list (list A) :=
  map (fun y => map (f y) (seq 0 (Z.to_nat w))) (seq 0 (Z.to_nat h)).

Definition map_px {A B : Type} (f : A -> B) (a : list (list A)) : list (list B) :=
  map (map f) a.

Definition zip_px {A B C : Type} (f : A -> B -> C)
    (a : list (list A)) (b : list (list B)) : list (list C) :=
  zip_with (zip_with f) a b.

(** Entry [(y, x)], 0 outside (used only inside bounds). *)
Definition at_yx (a : gray) (y x : nat) : Z :=
  default 0 (row ← a !! y; row !! x).

(** [np.zeros((h, w, 3), dtype=np.uint8)] and [np.zeros((h, w))]. *)
Definition np_zeros3 (h w : Z) : image := tabulate h w (fun _ _ => (0, 0, 0)).
Definition np_zeros2 (h w : Z) : gray := tabulate h w (fun _ _ => 0).

(** [np.add] on [uint8] operands: the sum wraps modulo 256. *)
Definition add_u8 (a b : Z) : Z := (a + b) mod 256.

Definition add_px (p q : pixel) : pixel :=
  let '(r1, g1, b1) := p in
  let '(r2, g2, b2) := q in
  (add_u8 r1 r2, add_u8 g1 g2, add_u8 b1 b2).

(** Broadcasting along one axis: equal lengths pair up, a length of one is
    repeated, anything else is a [ValueError]. *)
Definition broadcast_with {A B C : Type} (f : A -> B -> result C)
    (a : list A) (b : list B) : result (list C) :=
  if (length a =? length b)%nat then mapM (fun ab => f ab.1 ab.2) (zip a b)
  else match a, b with
       | [x], _ => mapM (f x) b
       | _, [y] => mapM (fun x => f x y) a
       | _, _ => Raise ValueError
       end.

Definition np_add (a b : image) : result image :=
  broadcast_with (broadcast_with (fun p q => Ok (add_px p q))) a b.

(** Python's slice bounds on an axis of length [n]: a negative bound counts
    from the end, and both are clamped into [0, n]. The result is the first
    index and the number of indices selected. *)
Definition slice_index (n i : Z) : Z :=
  if i <? 0 then Z.max (i + n) 0 else Z.min i n.

Definition slice_range (n start stop : Z) : Z * Z :=
  let s := slice_index n start in
  let e := slice_index n stop in
  (s, Z.max 0 (e - s)).

Definition broadcastable (src dst : Z) : bool := (src =? dst) || (src =? 1).

(** [a[r0:r1, c0:c1] = v] on two-dimensional arrays. *)
Definition set_slice (a : gray) (r0 r1 c0 c1 : Z) (v : gray) : result gray :=
  let '(rs, rl) := slice_range (height a) r0 r1 in
  let '(cs, cl) := slice_range (width a) c0 c1 in
  if broadcastable (height v) rl && broadcastable (width v) cl then
    Ok (imap (fun y row =>
          imap (fun x old =>
            if (rs <=? Z.of_nat y) && (Z.of_nat y <? rs + rl)
               && (cs <=? Z.of_nat x) && (Z.of_nat x <? cs + cl)
            then at_yx v (if height v =? 1 then 0 else Z.to_nat (Z.of_nat y - rs))
                         (if width v =? 1 then 0 else Z.to_nat (Z.of_nat x - cs))
            else old) row) a)
  else Raise ValueError.

(** ** OpenCV *)

(** What the code uses of OpenCV and does not define itself: the 8-bit
    colour conversions, the interpolation of [cv2.resize] (the value of the
    destination pixel [(y, x)] when the source is resized to width [w] and
    height [h]) and the rasterisation of [cv2.line] (whether pixel [(y, x)]
    is covered by the segment of the given thickness). *)
Class OpenCV : Type := {
  RGB2HSV : pixel -> pixel;
  HSV2RGB : pixel -> pixel;
  RGB2GRAY : pixel -> Z;
  resize_px : image -> Z -> Z -> nat -> nat -> pixel;
  resize_gray_px : gray -> Z -> Z -> nat -> nat -> Z;
  on_line : Z * Z -> Z * Z -> Z -> nat -> nat -> bool
}.

(** The files the program reads from its [files/] directory. *)
Class Assets : Type := {
  (** [cv2.imread("files/sign.png", cv2.IMREAD_GRAYSCALE)] *)
  sign_png : gray
}.

(** The values of a C [int], and the points whose coordinates are such. *)
Definition c_int (z : Z) : bool := (- 2 ^ 31 <=? z) && (z <? 2 ^ 31).

Definition c_point (p : Z * Z) : bool := c_int p.1 && c_int p.2.

Section OpenCVOps.

Context `{OpenCV}.

(** [cv2.resize(src, (w, h))]: an empty source or an empty destination
    size is an OpenCV error, the source's own size is a plain copy. *)
Definition cv2_resize (src : image) (w h : Z) : result image :=
  if (w <=? 0) || (h <=? 0) || (height src <=? 0) || (width src <=? 0)
  then Raise cv2_error
  else if (w =? width src) && (h =? height src) then Ok src
  else Ok (tabulate h w (resize_px src w h)).

Definition cv2_resize_gray (src : gray) (w h : Z) : result gray :=
  if (w <=? 0) || (h <=? 0) || (height src <=? 0) || (width src <=? 0)
  then Raise cv2_error
  else if (w =? width src) && (h =? height src) then Ok src
  else Ok (tabulate h w (resize_gray_px src w h)).

Definition cvtColor_RGB2HSV (img : image) : image := map_px RGB2HSV img.
Definition cvtColor_HSV2RGB (img : image) : image := map_px HSV2RGB img.
Definition cvtColor_RGB2GRAY (img : image) : gray := map_px RGB2GRAY img.

(** [cv2.bitwise_or(a, b, mask=m)] into a new array: the bitwise or where
    the mask is non-zero, zero elsewhere. *)
Definition or_px (p q : pixel) : pixel :=
  let '(r1, g1, b1) := p in
  let '(r2, g2, b2) := q in
  (Z.lor r1 r2, Z.lor g1 g2, Z.lor b1 b2).

Definition cv2_bitwise_or (a b : image) (m : gray) : result image :=
  if same_dims a b && same_dims a m
  then Ok (zip_px (fun pq (v : Z) => if v =? 0 then (0, 0, 0) else or_px pq.1 pq.2)
             (zip_px pair a b) m)
  else Raise cv2_error.

Definition cv2_bitwise_not (m : gray) : gray := map_px (fun v => Z.lxor v 255) m.

(** [cv2.addWeighted(a, 1.0, b, 0.5, 0, a)] on one channel: [a + b/2]
    rounded to the nearest integer, ties to even, saturated at 255. *)
Definition add_weighted_u8 (a b : Z) : Z :=
  let twice := 2 * a + b in
  let q := twice / 2 in
  let r := if (twice mod 2 =? 0) || Z.even q then q else q + 1 in
  Z.min 255 r.

Definition add_weighted_px (p q : pixel) : pixel :=
  let '(r1, g1, b1) := p in
  let '(r2, g2, b2) := q in
  (add_weighted_u8 r1 r2, add_weighted_u8 g1 g2, add_weighted_u8 b1 b2).

Definition cv2_addWeighted (a b : image) : image := zip_px add_weighted_px a b.

(** A segment drawn on an array: the covered pixels take the colour; the
    array keeps its shape. *)
Definition draw_line (img : image) (p1 p2 : Z * Z) (color : pixel)
    (thickness : Z) : image :=
  imap (fun y row =>
    imap (fun x old => if on_line p1 p2 thickness y x then color else old) row)
    img.

(** [cv2.line(img, p1, p2, color, thickness)]: the end points are converted
    to C [int]s, and a coordinate that does not fit is an OpenCV error. *)
Definition cv2_line (img : image) (p1 p2 : Z * Z) (color : pixel)
    (thickness : Z) : result image :=
  if c_point p1 && c_point p2
  then Ok (draw_line img p1 p2 color thickness)
  else Raise cv2_error.

End OpenCVOps.

(** Every row of a numpy array has the same length. *)
Definition rectangular {A : Type} (a : list (list A)) : Prop :=
  has_shape a (height a) (width a).

(** The entry at row [y], column [x], if any. *)
Definition px_at {A : Type} (a : list (list A)) (y x : nat) : option A :=
  row ← a !! y; row !! x.

(** Channel values are bytes. *)
Definition u8 (v : Z) : Prop := 0 <= v < 256.

Definition u8_px (p : pixel) : Prop := u8 p.1.1 /\ u8 p.1.2 /\ u8 p.2.

Definition u8_image (img : image) : Prop := Forall (Forall u8_px) img.


(** A sum clipped to the 8-bit range, for comparison with [add_u8]. *)
Definition saturating_add_u8 (a b : Z) : Z := Z.min 255 (a + b).

Definition saturating_add_px (p q : pixel) : pixel :=
  let '(r1, g1, b1) := p in
  let '(r2, g2, b2) := q in
  (saturating_add_u8 r1 r2, saturating_add_u8 g1 g2, saturating_add_u8 b1 b2).

(** ** [process_image] *)

(** Lines 59-61. [int(n / 2)] divides in binary64 and truncates; the
    quotient of an integer below [2^53] by two is exact, so on image
    dimensions this is the integer quotient. *)
Equations resized_dims (img_width img_height : Z) : Z * Z
  by wf (Z.to_nat (Z.max img_width img_height)) lt :=
  resized_dims img_width img_height
    with decide (500 < img_width \/ 500 < img_height) => {
    | left _ => resized_dims (Z.quot img_width 2) (Z.quot img_height 2)
    | right _ => (img_width, img_height) }.
Next Obligation.
  assert (Hq : forall x, 0 < x -> Z.quot x 2 < x) by (intros; apply Z.quot_lt; lia).
  assert (Hn : forall x, x <= 500 -> Z.quot x 2 <= 250).
  { intros x Hx. destruct (Z_lt_le_dec x 0).
    - pose proof (Z.quot_opp_l x 2 ltac:(lia)).
      assert (0 <= Z.quot (- x) 2) by (apply Z.quot_pos; lia). lia.
    - apply Z.quot_le_upper_bound; lia. }
  destruct (Z_lt_le_dec 500 img_width), (Z_lt_le_dec 500 img_height);
    try pose proof (Hq img_width ltac:(lia));
    try pose proof (Hq img_height ltac:(lia));
    try pose proof (Hn img_width ltac:(lia));
    try pose proof (Hn img_height ltac:(lia)); lia.
Qed.

Section ProcessImage.

Context `{OpenCV} `{Assets}.

(** Lines 64-75: the two layers, before the sign is added. *)
Definition split_layers (img : image) (img_mask : option image)
    (img_width img_height : Z) : result (image * image) :=
  match img_mask with
  | None =>
      let img_foreground := img in
      let img_background := np_zeros3 img_height img_width in
      Ok (img_foreground, img_background)
  | Some img_mask =>
      img_mask ← cv2_resize img_mask img_width img_height;
      let binary_mask :=
        map_px (fun v => if 0 <? v then 1 else 0) (cvtColor_RGB2GRAY img_mask) in
      let binary_mask := map_px (fun v => (v * 255) mod 256) binary_mask in
      img_foreground ← cv2_bitwise_or img img binary_mask;
      img_background ← cv2_bitwise_or img img (cv2_bitwise_not binary_mask);
      Ok (img_foreground, img_background)
  end.

(** Lines 79-85. *)
Definition sign_img : gray := map_px (fun v => if 0 <? v then 255 else 0) sign_png.

Definition adjusted_height : Z :=
  F64.trunc (F64.mul (F64.of_Z (height sign_img)) f_0_15).

Definition adjusted_width : Z :=
  F64.trunc (F64.mul (F64.of_Z (width sign_img)) f_0_15).

(** Lines 86-88: the sign on a black canvas of the image's size. *)
Definition place_sign (resized_sign_img : gray) (img_height img_width : Z) :
    result gray :=
  let binary_sign_img := np_zeros2 img_height img_width in
  set_slice binary_sign_img
    (img_height - adjusted_height - 10) (img_height - 10)
    (img_width - adjusted_width - 10) (img_width - 10)
    resized_sign_img.

(** Lines 79-92. *)
Definition add_sign (img_background : image) (img_height img_width : Z) :
    result image :=
  resized_sign_img ← cv2_resize_gray sign_img adjusted_width adjusted_height;
  binary_sign_img ← place_sign resized_sign_img img_height img_width;
  let binary_sign_img := map_px (fun v => (v, v, v)) binary_sign_img in
  Ok (cv2_addWeighted img_background binary_sign_img).

Definition process_image (img : image) (img_mask : option image) :
    result (image * image * image) :=
  let img_height := height img in
  let img_width := width img in
  let '(img_width, img_height) := resized_dims img_width img_height in
  img ← cv2_resize img img_width img_height;
  '(img_foreground, img_background) ←
    split_layers img img_mask img_width img_height;
  img_background ← add_sign img_background img_height img_width;
  Ok (img, img_foreground, img_background).

End ProcessImage.

(** ** Binary32, as far as [adjust_brightness] needs it *)

Module F32.

Definition prec : Z := 24.
Definition emax : Z := 128.

Definition of_Z (n : Z) : spec_float := binary_normalize prec emax n 0 false.

(** Conversion of a binary64 value, rounding to nearest even. *)
Definition of_f64 (x : float) : spec_float :=
  match x with
  | S754_finite s m e => binary_round prec emax s m e
  | _ => x
  end.

Definition mul : spec_float -> spec_float -> spec_float := SFmul prec emax.

(** The C conversion to [uint8]: truncation, then the low eight bits. *)
Definition to_u8 (x : spec_float) : Z := F64.trunc x mod 256.

End F32.

(** ** The amplitude encoder *)

Definition f32_pixel : Type := spec_float * spec_float * spec_float.
Definition f32_image : Type := list (list f32_pixel).

(** [img.astype(np.float32)] *)
Definition astype_float32 (img : image) : f32_image :=
  map_px (fun p : pixel =>
            let '(c0, c1, c2) := p in (F32.of_Z c0, F32.of_Z c1, F32.of_Z c2)) img.

(** [img[:, :, 2] *= value] on a [float32] array: numpy multiplies in
    binary32, with the scalar converted to binary32 first. *)
Definition imul_channel2 (img : f32_image) (value : float) : f32_image :=
  map_px (fun p : f32_pixel =>
            let '(c0, c1, c2) := p in (c0, c1, F32.mul c2 (F32.of_f64 value))) img.

(** [np.uint8(img)] *)
Definition np_uint8 (img : f32_image) : image :=
  map_px (fun p : f32_pixel =>
            let '(c0, c1, c2) := p in (F32.to_u8 c0, F32.to_u8 c1, F32.to_u8 c2)) img.

(** A float division by a Python number: zero raises. *)
Definition py_truediv (a b : float) : result float :=
  if F64.is_zero b then Raise ZeroDivisionError else Ok (F64.div a b).

Definition py_getitem {A : Type} (l : list A) (i : nat) : result A :=
  match l !! i with
  | Some a => Ok a
  | None => Raise IndexError
  end.

Definition line_thickness : Z := 2.
Definition color : pixel := (255, 255, 255).

(** The point [draw_horz_sound] plots for sample [i] (lines 107-112). *)
Definition trace_point (pos_x pos_y : Z) (step_size_in_x step_size_in_y : float)
    (amplitudes : list float) (i : nat) : result (Z * Z) :=
  x ← F64.round (F64.add (F64.of_Z pos_x)
                   (F64.mul (F64.of_Z (Z.of_nat i)) step_size_in_x));
  a ← py_getitem amplitudes i;
  y ← F64.round (F64.sub (F64.of_Z pos_y) (F64.mul a step_size_in_y));
  Ok (x, y).

Section Encoder.

Context `{OpenCV}.

Definition adjust_brightness (img : image) (value : float) : image :=
  let img := cvtColor_RGB2HSV img in
  let img := astype_float32 img in
  let img := imul_channel2 img value in
  let img := np_uint8 img in
  cvtColor_HSV2RGB img.

(** The body of the loop of [draw_horz_sound], over the indices still to
    visit. *)
Fixpoint draw_segments (indices : list nat) (img : image) (pos_x pos_y : Z)
    (step_size_in_x step_size_in_y : float) (amplitudes : list float) :
    result image :=
  match indices with
  | [] => Ok img
  | i :: indices' =>
      point1 ← trace_point pos_x pos_y step_size_in_x step_size_in_y amplitudes i;
      point2 ← trace_point pos_x pos_y step_size_in_x step_size_in_y amplitudes (S i);
      img ← cv2_line img point1 point2 color line_thickness;
      draw_segments indices' img
        pos_x pos_y step_size_in_x step_size_in_y amplitudes
  end.

(** The segment the loop hands to [cv2.line] at index [i], once both end
    points are computed and accepted, and the lines drawn one after the
    other. *)
Definition trace_segment (pos_x pos_y : Z) (step_size_in_x step_size_in_y : float)
    (amplitudes : list float) (i : nat) : result ((Z * Z) * (Z * Z)) :=
  point1 ← trace_point pos_x pos_y step_size_in_x step_size_in_y amplitudes i;
  point2 ← trace_point pos_x pos_y step_size_in_x step_size_in_y amplitudes (S i);
  if c_point point1 && c_point point2 then Ok (point1, point2)
  else Raise cv2_error.

Definition draw_lines (img : image) (segments : list ((Z * Z) * (Z * Z))) : image :=
  foldl (fun im seg => draw_line im seg.1 seg.2 color line_thickness) img segments.

(** [draw_horz_sound] draws on [img] in place; the model returns the array
    as the call leaves it. *)
Definition draw_horz_sound (img : image) (amplitudes : list float) : result image :=
  let img_height := height img in
  let img_width := width img in
  let pos_x := 20 in
  let pos_y := img_height - 50 in
  let box_width_px := F64.div (F64.of_Z img_width) (F64.of_Z 4) in
  let box_height_px := F64.div (F64.of_Z img_height) (F64.of_Z 5) in
  let num_points := Z.of_nat (length amplitudes) in
  step_size_in_x ← py_truediv box_width_px (F64.of_Z num_points);
  let step_size_in_y := F64.div box_height_px (F64.of_Z 6) in
  draw_segments (seq 0 (length amplitudes - 2)) img pos_x pos_y
    step_size_in_x step_size_in_y amplitudes.

Definition encode_image (amplitudes_per_img_frame : list float)
    (img_foreground img_background : image) (should_plot : bool) : result image :=
  factor ← brightness_factor amplitudes_per_img_frame;
  let img_foreground := adjust_brightness img_foreground factor in
  merged_image ← np_add img_foreground img_background;
  merged_image ←
    (if should_plot
     then draw_horz_sound merged_image amplitudes_per_img_frame
     else Ok merged_image);
  Ok merged_image.

End Encoder.

(** ** The encoder over a store of arrays

    Python names are references: [adjust_brightness] rebinds its local name
    [img] to new arrays and multiplies one of them in place,
    [draw_horz_sound] draws into the array it is given, and
    [np.asarray(a, dtype=np.uint8)] returns [a] itself when [a] already has
    that type. The store maps each array object to its contents; a raised
    exception leaves the store as it was at that point. *)

Module Heap.

Definition loc : Type := positive.

Inductive array : Type :=
| U8 (a : image)
| F32A (a : f32_image).

Abbreviation store := (gmap loc array).

Definition M (A : Type) : Type := store -> result A * store.

Definition ret {A : Type} (a : A) : M A := fun s => (Ok a, s).

Definition bind {A B : Type} (m : M A) (k : A -> M B) : M B :=
  fun s =>
    match m s with
    | (Ok a, s') => k a s'
    | (Raise e, s') => (Raise e, s')
    end.

Definition lift {A : Type} (r : result A) : M A := fun s => (r, s).

(** A new array object. *)
Definition alloc (v : array) : M loc :=
  fun s => let l := fresh (dom s) in (Ok l, <[l := v]> s).

Definition read_u8 (l : loc) : M image :=
  fun s => match s !! l with
           | Some (U8 a) => (Ok a, s)
           | _ => (Raise TypeError, s)
           end.

Definition read_f32 (l : loc) : M f32_image :=
  fun s => match s !! l with
           | Some (F32A a) => (Ok a, s)
           | _ => (Raise TypeError, s)
           end.

(** An update in place. *)
Definition write (l : loc) (v : array) : M unit :=
  fun s => (Ok tt, <[l := v]> s).

Section WithOpenCV.

Context `{OpenCV}.

Definition adjust_brightness (img : loc) (value : float) : M loc :=
  bind (read_u8 img) (fun a =>
  bind (alloc (U8 (cvtColor_RGB2HSV a))) (fun img =>
  bind (read_u8 img) (fun a =>
  bind (alloc (F32A (astype_float32 a))) (fun img =>
  bind (read_f32 img) (fun a =>
  bind (write img (F32A (imul_channel2 a value))) (fun _ =>
  bind (read_f32 img) (fun a =>
  bind (alloc (U8 (np_uint8 a))) (fun img =>
  bind (read_u8 img) (fun a =>
  alloc (U8 (cvtColor_HSV2RGB a))))))))))).

Fixpoint draw_segments (indices : list nat) (img : loc) (pos_x pos_y : Z)
    (step_size_in_x step_size_in_y : float) (amplitudes : list float) :
    M unit :=
  match indices with
  | [] => ret tt
  | i :: indices' =>
      bind (lift (trace_point pos_x pos_y step_size_in_x step_size_in_y
                    amplitudes i)) (fun point1 =>
      bind (lift (trace_point pos_x pos_y step_size_in_x step_size_in_y
                    amplitudes (S i))) (fun point2 =>
      bind (read_u8 img) (fun a =>
      bind (lift (cv2_line a point1 point2 color line_thickness)) (fun a =>
      bind (write img (U8 a)) (fun _ =>
      draw_segments indices' img pos_x pos_y step_size_in_x step_size_in_y
        amplitudes)))))
  end.

Definition draw_horz_sound (img : loc) (amplitudes : list float) : M unit :=
  bind (read_u8 img) (fun a =>
  let img_height := height a in
  let img_width := width a in
  let pos_x := 20 in
  let pos_y := img_height - 50 in
  let box_width_px := F64.div (F64.of_Z img_width) (F64.of_Z 4) in
  let box_height_px := F64.div (F64.of_Z img_height) (F64.of_Z 5) in
  let num_points := Z.of_nat (length amplitudes) in
  bind (lift (py_truediv box_width_px (F64.of_Z num_points)))
    (fun step_size_in_x =>
  let step_size_in_y := F64.div box_height_px (F64.of_Z 6) in
  draw_segments (seq 0 (length amplitudes - 2)) img pos_x pos_y
    step_size_in_x step_size_in_y amplitudes)).

Definition encode_image (amplitudes_per_img_frame : list float)
    (img_foreground img_background : loc) (should_plot : bool) : M loc :=
  bind (lift (brightness_factor amplitudes_per_img_frame)) (fun factor =>
  bind (adjust_brightness img_foreground factor) (fun img_foreground =>
  bind (read_u8 img_foreground) (fun a =>
  bind (read_u8 img_background) (fun b =>
  bind (lift (np_add a b)) (fun sum =>
  bind (alloc (U8 sum)) (fun merged_image =>
  bind (if should_plot
        then draw_horz_sound merged_image amplitudes_per_img_frame
        else ret tt) (fun _ =>
  ret merged_image))))))).

End WithOpenCV.

End Heap.

(** The arrays of [s] are still there, unchanged, in [s']. *)
Definition unchanged (s s' : gmap Heap.loc Heap.array) : Prop :=
  forall l, l ∈ dom s -> s' !! l = s !! l.

(** ** PIL images and [load_image] *)

Inductive pil_mode : Type :=
| Mode_1 | Mode_L | Mode_P | Mode_I
| Mode_LA
| Mode_RGB | Mode_YCbCr
| Mode_RGBA | Mode_CMYK.

Definition bands (m : pil_mode) : Z :=
  match m with
  | Mode_1 | Mode_L | Mode_P | Mode_I => 1
  | Mode_LA => 2
  | Mode_RGB | Mode_YCbCr => 3
  | Mode_RGBA | Mode_CMYK => 4
  end.

(** A decoded image: its mode, its [size] as PIL reports it, (width,
    height), and its rows of pixels, one value per band. *)
Record pil_image : Type := {
  pil_mode_of : pil_mode;
  pil_size : Z * Z;
  pil_data : list (list (list Z))
}.

(** A numpy array as [load_image] sees it: its shape and its entries. A
    single-band image becomes a two-dimensional array. *)
Record ndarray : Type := {
  nd_shape : list Z;
  nd_data : list (list (list Z))
}.

Definition np_asarray (p : pil_image) : ndarray :=
  let '(w, h) := pil_size p in
  {| nd_shape := if bands (pil_mode_of p) =? 1 then [h; w]
                 else [h; w; bands (pil_mode_of p)];
     nd_data := pil_data p |}.

(** The array as an RGB image, for the code that assumes three channels. *)
Definition as_rgb (a : ndarray) : result image :=
  mapM (mapM (fun p : list Z =>
                match p with
                | [r; g; b] => Ok (r, g, b)
                | _ => Raise TypeError
                end)) (nd_data a).

(** What the code uses of PIL: the conversion of one pixel of a given mode
    to RGB. *)
Class PIL : Type := {
  convert_RGB_px : pil_mode -> list Z -> pixel
}.

(** The bundled examples, as [Image.open] decodes them. *)
Class Examples : Type := {
  sample_images : list pil_image;
  sample_images_mask : list pil_image
}.

(** The state of the sidebar when [load_image] runs: the button, the value
    [random.randint] returns, and the two uploads as [Image.open] decodes
    them. *)
Record sidebar : Type := {
  button_use_example : bool;
  random_index : nat;
  uploaded_img_file : option pil_image;
  uploaded_img_mask : option pil_image
}.

Section LoadImage.

Context `{PIL} `{Examples}.

(** [img.convert('RGB')] *)
Definition convert_RGB (p : pil_image) : pil_image :=
  {| pil_mode_of := Mode_RGB;
     pil_size := pil_size p;
     pil_data := map_px (fun px => let '(r, g, b) := convert_RGB_px (pil_mode_of p) px
                                   in [r; g; b]) (pil_data p) |}.

(** Lines 146-165: the two PIL images, or a stop on differing sizes. *)
Definition choose_images (ui : sidebar) :
    result (option pil_image * option pil_image) :=
  if button_use_example ui then
    img ← py_getitem sample_images (random_index ui);
    img_mask ← py_getitem sample_images_mask (random_index ui);
    Ok (Some img, Some img_mask)
  else
    let img := convert_RGB <$> uploaded_img_file ui in
    let img_mask := convert_RGB <$> uploaded_img_mask ui in
    match img, img_mask with
    | Some i, Some m =>
        if decide (pil_size i = pil_size m) then Ok (img, img_mask)
        else Raise StopException
    | _, _ => Ok (img, img_mask)
    end.

(** Lines 167-195. *)
Definition check_images (img img_mask : option pil_image) :
    result (ndarray * option ndarray) :=
  match img with
  | None => Raise StopException
  | Some img =>
      let img := np_asarray img in
      channels ← py_getitem (nd_shape img) 2;
      if channels =? 3 then
        match img_mask with
        | Some img_mask =>
            let img_mask := np_asarray img_mask in
            channels ← py_getitem (nd_shape img_mask) 2;
            if channels =? 3 then Ok (img, Some img_mask)
            else Raise StopException
        | None => Ok (img, None)
        end
      else Raise StopException
  end.

Definition load_image (ui : sidebar) : result (ndarray * option ndarray) :=
  '(img, img_mask) ← choose_images ui;
  check_images img img_mask.

End LoadImage.

Section Prepare.

Context `{OpenCV} `{Assets} `{PIL} `{Examples}.

(** Lines 217-218 and 327-328: the images are loaded, then processed. *)
Definition prepare (ui : sidebar) : result (image * image * image) :=
  '(img, img_mask) ← load_image ui;
  img ← as_rgb img;
  img_mask ← match img_mask with
             | Some m => m ← as_rgb m; Ok (Some m)
             | None => Ok None
             end;
  process_image img img_mask.

End Prepare.

(** ** Frame sequencing *)

(** What the code uses of a pydub [AudioSegment]: its length in
    milliseconds, a slice between two millisecond positions, and its
    samples. *)
Class AudioSegment (seg : Type) : Type := {
  seg_len : seg -> Z;
  seg_slice : seg -> float -> float -> seg;
  get_array_of_samples : seg -> list Z
}.

(** [ImageClip(img).set_duration(d)] *)
Record image_clip : Type := {
  clip_frame : image;
  clip_duration : float
}.

(** What the code uses of moviepy and of the WAV export: the file
    [cut_audio.export(name, "wav")] writes, the clip [AudioFileClip(name)]
    reads back from it, the samples of such a clip, and the file
    [write_videofile] encodes from the image clips, their audio track and
    the frame rate. Writing and reading can fail. *)
Class MoviePy (seg : Type) : Type := {
  wav_file : Type;
  audio_clip : Type;
  mp4_file : Type;
  export_wav : seg -> result wav_file;
  AudioFileClip : wav_file -> result audio_clip;
  audio_samples : audio_clip -> list Z;
  write_videofile : list image_clip -> audio_clip -> Z -> result mp4_file
}.

(** Python's [range(n)] as integers. *)
Definition py_range (n : Z) : list Z := map Z.of_nat (seq 0 (Z.to_nat n)).

Section Sequencer.

Context {seg : Type} `{AudioSegment seg} `{MoviePy seg} `{OpenCV}.

(** [pydub.utils.make_chunks]: [ceil(len / chunk_length)] consecutive
    slices of [chunk_length] milliseconds, the last one as long as what
    is left. *)
Definition make_chunks (audio_segment : seg) (chunk_length : float) :
    result (list seg) :=
  q ← py_truediv (F64.of_Z (seg_len audio_segment)) chunk_length;
  let number_of_chunks := F64.ceil q in
  Ok (map (fun i => seg_slice audio_segment
                      (F64.mul (F64.of_Z i) chunk_length)
                      (F64.mul (F64.of_Z (i + 1)) chunk_length))
          (py_range number_of_chunks)).

(** Line 346: the amplitudes of one chunk. *)
Definition sound_array (chunk : seg) : list float :=
  map (fun n => F64.div (F64.of_Z n) (F64.of_Z 10000)) (get_array_of_samples chunk).

(** Line 339. *)
Definition chunk_ms (fps : Z) : result float :=
  inv ← py_truediv (F64.of_Z 1) (F64.of_Z fps);
  Ok (F64.mul inv (F64.of_Z 1000)).

(** Lines 339-348: one image clip per chunk. *)
Definition image_clips (cut_audio : seg) (img_foreground img_background : image)
    (fps : Z) : result (list image_clip) :=
  chunk_ms ← chunk_ms fps;
  chunks ← make_chunks cut_audio chunk_ms;
  mapM (fun chunk =>
          img ← encode_image (sound_array chunk) img_foreground img_background true;
          duration ← py_truediv (F64.of_Z 1) (F64.of_Z fps);
          Ok {| clip_frame := img; clip_duration := duration |}) chunks.

(** The clip handed to [write_videofile]: the concatenated image clips
    with their audio track. *)
Record video : Type := {
  video_frames : list image_clip;
  video_audio : audio_clip;
  video_fps : Z
}.

(** Lines 339-356: the clip handed to [write_videofile]. The audio is
    exported and read back before the image clips are concatenated;
    [concatenate_videoclips] takes the widest and the tallest size of its
    clips and so raises on an empty list. *)
Definition build_video (cut_audio : seg) (img_foreground img_background : image)
    (fps : Z) : result video :=
  img_clips ← image_clips cut_audio img_foreground img_background fps;
  audio_writer ← export_wav cut_audio;
  audio_clip ← AudioFileClip audio_writer;
  video_clip ← (match img_clips with
                | [] => Raise ValueError
                | _ => Ok img_clips
                end);
  Ok {| video_frames := video_clip; video_audio := audio_clip; video_fps := fps |}.

(** Lines 339-357: the file written. *)
Definition render_video (cut_audio : seg) (img_foreground img_background : image)
    (fps : Z) : result mp4_file :=
  video_clip_with_audio ← build_video cut_audio img_foreground img_background fps;
  write_videofile (video_frames video_clip_with_audio)
    (video_audio video_clip_with_audio) fps.

End Sequencer.

(** ** Reference instances

    Executable stand-ins for the libraries, used to run the examples below.
    The colour conversions follow OpenCV's 8-bit conventions (hue in
    [0, 180), saturation and value in [0, 255]); the examples use grey
    pixels only, which both conversions map to themselves
    ([(v, v, v)] to hue 0, saturation 0, value [v], and back). *)

Module Reference.

Definition round_div (n d : Z) : Z := (2 * n + d) / (2 * d).

Definition rgb2hsv (p : pixel) : pixel :=
  let '(r, g, b) := p in
  let v := Z.max r (Z.max g b) in
  let vmin := Z.min r (Z.min g b) in
  let diff := v - vmin in
  let sdiv := if v =? 0 then 0 else round_div (255 * 4096) v in
  let hdiv := if diff =? 0 then 0 else round_div (180 * 4096) (6 * diff) in
  let s := Z.shiftr (diff * sdiv + 2048) 12 in
  let h0 := if v =? r then g - b
            else if v =? g then b - r + 2 * diff
            else r - g + 4 * diff in
  let h := Z.shiftr (h0 * hdiv + 2048) 12 in
  ((if h <? 0 then h + 180 else h), s, v).

Definition hsv2rgb (p : pixel) : pixel :=
  let '(h, s, v) := p in
  if s =? 0 then (v, v, v)
  else
    let sector := (h / 30) mod 6 in
    let f := h mod 30 in
    let p0 := round_div (v * (255 - s)) 255 in
    let q0 := round_div (v * (255 * 30 - s * f)) (255 * 30) in
    let t0 := round_div (v * (255 * 30 - s * (30 - f))) (255 * 30) in
    match sector with
    | 0 => (v, t0, p0)
    | 1 => (q0, v, p0)
    | 2 => (p0, v, t0)
    | 3 => (p0, q0, v)
    | 4 => (t0, p0, v)
    | _ => (v, p0, q0)
    end.

Definition rgb2gray (p : pixel) : Z :=
  let '(r, g, b) := p in
  Z.shiftr (r * 4899 + g * 9617 + b * 1868 + 8192) 14.

(** Nearest-neighbour sampling, in place of OpenCV's interpolation. *)
Definition nearest {A : Type} (d : A) (src : list (list A)) (w h : Z)
    (y x : nat) : A :=
  let sy := Z.to_nat (Z.of_nat y * height src / h) in
  let sx := Z.to_nat (Z.of_nat x * width src / w) in
  default d (row ← src !! sy; row !! sx).

(** A pixel is on the line when its centre is within half the thickness
    of the segment. *)
Definition near_segment (p1 p2 : Z * Z) (thickness : Z) (y x : nat) : bool :=
  let '(x1, y1) := p1 in
  let '(x2, y2) := p2 in
  let px := Z.of_nat x in
  let py := Z.of_nat y in
  let len2 := (x2 - x1) * (x2 - x1) + (y2 - y1) * (y2 - y1) in
  let dot := (px - x1) * (x2 - x1) + (py - y1) * (y2 - y1) in
  let d1 := (px - x1) * (px - x1) + (py - y1) * (py - y1) in
  let d2 := (px - x2) * (px - x2) + (py - y2) * (py - y2) in
  let cross := (px - x1) * (y2 - y1) - (py - y1) * (x2 - x1) in
  if (0 <=? dot) && (dot <=? len2) && negb (len2 =? 0)
  then 4 * cross * cross <=? thickness * thickness * len2
  else 4 * Z.min d1 d2 <=? thickness * thickness.

Global Instance opencv : OpenCV := {|
  RGB2HSV := rgb2hsv;
  HSV2RGB := hsv2rgb;
  RGB2GRAY := rgb2gray;
  resize_px := nearest (0, 0, 0);
  resize_gray_px := nearest 0;
  on_line := near_segment
|}.

(** Conversion to RGB: grey levels are repeated, an alpha band is
    dropped. *)
Global Instance pil : PIL := {|
  convert_RGB_px := fun m px =>
    match m, px with
    | (Mode_RGB | Mode_YCbCr | Mode_RGBA), r :: g :: b :: _ => (r, g, b)
    | Mode_CMYK, c :: m :: y :: _ => (255 - c, 255 - m, 255 - y)
    | _, v :: _ => (v, v, v)
    | _, [] => (0, 0, 0)
    end
|}.

(** A mono segment: its frame rate and its samples. The length and the
    slices follow pydub: [len] is [round(1000 * frames / rate)], and a
    position in milliseconds is the frame [int(ms * (rate / 1000.0))]. *)
Record segment : Type := {
  frame_rate : Z;
  samples : list Z
}.

Definition segment_len (s : segment) : Z :=
  match F64.round (F64.mul (F64.of_Z 1000)
                     (F64.div (F64.of_Z (Z.of_nat (length (samples s))))
                              (F64.of_Z (frame_rate s)))) with
  | Ok n => n
  | Raise _ => 0
  end.

Definition position (s : segment) (ms : float) : nat :=
  let len := F64.of_Z (segment_len s) in
  let ms := if F64.ltb len ms then len else ms in
  Z.to_nat (F64.trunc (F64.mul ms (F64.div (F64.of_Z (frame_rate s))
                                           (F64.of_Z 1000)))).

Definition segment_slice (s : segment) (start stop : float) : segment :=
  let a := position s start in
  let b := position s stop in
  {| frame_rate := frame_rate s;
     samples := take (b - a) (drop a (samples s)) |}.

Global Instance audio_segment : AudioSegment segment := {|
  seg_len := segment_len;
  seg_slice := segment_slice;
  get_array_of_samples := samples
|}.

(** A WAV file holds the segment as it is. A reader that gives the
    samples back, refusing a file without any; the written video is the
    frames with the track. *)
Global Instance moviepy : MoviePy segment := {|
  wav_file := segment;
  audio_clip := list Z;
  mp4_file := list image_clip * list Z;
  export_wav := fun s => Ok s;
  AudioFileClip := fun w => match samples w with
                            | [] => Raise OSError
                            | _ => Ok (samples w)
                            end;
  audio_samples := fun a => a;
  write_videofile := fun clips a _ => Ok (clips, a)
|}.

(** moviepy's own reader decodes through ffmpeg at 44100 frames a second
    on two channels: each second of a mono segment comes back as 44100
    pairs. The frame nearest in time stands for ffmpeg's interpolation. *)
Definition decode_44100_stereo (w : segment) : list Z :=
  flat_map (fun k => let v := default 0 (samples w !! Z.to_nat (k * frame_rate w / 44100))
                     in [v; v])
    (py_range (Z.of_nat (length (samples w)) * 44100 / frame_rate w)).

Definition ffmpeg_reader : MoviePy segment := {|
  wav_file := segment;
  audio_clip := list Z;
  mp4_file := list image_clip * list Z;
  export_wav := fun s => Ok s;
  AudioFileClip := fun w => match samples w with
                            | [] => Raise OSError
                            | _ => Ok (decode_44100_stereo w)
                            end;
  audio_samples := fun a => a;
  write_videofile := fun clips a _ => Ok (clips, a)
|}.

(** A sign of 100 by 200 pixels, all set: it scales to 15 by 30. *)
Definition sign_100x200 : Assets := {| sign_png := tabulate 100 200 (fun _ _ => 255) |}.

(** A sign of 20 by 20 pixels, all set: it scales to 3 by 3. *)
Definition sign_20x20 : Assets := {| sign_png := tabulate 20 20 (fun _ _ => 255) |}.

Definition no_examples : Examples :=
  {| sample_images := []; sample_images_mask := [] |}.

Definition grey (h w v : Z) : image := tabulate h w (fun _ _ => (v, v, v)).


(** A store holding a foreground at location 1 and a background at
    location 2. *)
Definition two_layers : gmap Heap.loc Heap.array :=
  <[1%positive := Heap.U8 (grey 60 40 200)]>
    (<[2%positive := Heap.U8 (grey 60 40 100)]> ∅).

(** An upload as PIL decodes it: [h] rows of [w] pixels, every band of
    every pixel set to [v]. *)
Definition flat_image (mode : pil_mode) (h w v : Z) : pil_image :=
  {| pil_mode_of := mode;
     pil_size := (w, h);
     pil_data := tabulate h w (fun _ _ => replicate (Z.to_nat (bands mode)) v) |}.

(** The sidebar with the button not pressed and the given uploads. *)
Definition uploads (img img_mask : option pil_image) : sidebar :=
  {| button_use_example := false;
     random_index := 0;
     uploaded_img_file := img;
     uploaded_img_mask := img_mask |}.

(** One bundled example whose mask is larger than its image. *)
Definition uneven_example : Examples :=
  {| sample_images := [flat_image Mode_RGB 14 14 90];
     sample_images_mask := [flat_image Mode_RGB 16 16 255] |}.

(** The sidebar with the button pressed and the first example drawn. *)
Definition first_example : sidebar :=
  {| button_use_example := true;
     random_index := 0;
     uploaded_img_file := None;
     uploaded_img_mask := None |}.

(** One second of sound at 200 samples a second. *)
Definition tone : segment :=
  {| frame_rate := 200;
     samples := map (fun k => (Z.of_nat k * 37) mod 2001 - 1000) (seq 0 200) |}.

(** A tenth of a second of the same sound. *)
Definition click : segment :=
  {| frame_rate := 200; samples := take 20 (samples tone) |}.

End Reference.
(** * Theorems *)

(** ** Order facts about binary64 comparison *)

Section AbsOrder.

Lemma compare_cont_Eq (p q : positive) :
  Pos.compare_cont Eq p q = Pos.compare p q.
Proof. reflexivity. Qed.

Lemma ltb_abs_key (x y : float) :
  F64.is_nan x = false -> F64.is_nan y = false ->
  F64.ltb (F64.abs x) (F64.abs y) = true <-> key_lt (abs_key x) (abs_key y).
Proof.
  intros Hx Hy.
  destruct x as [sx|sx| |sx mx ex], y as [sy|sy| |sy my ey];
    try discriminate; cbn; try (split; [discriminate | lia]);
    try (split; [lia | reflexivity]).
  unfold F64.ltb, SFltb; cbn.
  rewrite compare_cont_Eq.
  destruct (Z.compare_spec ex ey), (Pos.compare_spec mx my);
    split; intros; try discriminate; try reflexivity; try lia.
Qed.

Lemma leb_abs_key (x y : float) :
  F64.is_nan x = false -> F64.is_nan y = false ->
  F64.leb (F64.abs x) (F64.abs y) = true <-> ~ key_lt (abs_key y) (abs_key x).
Proof.
  intros Hx Hy.
  destruct x as [sx|sx| |sx mx ex], y as [sy|sy| |sy my ey];
    try discriminate; cbn; try (split; [lia | reflexivity]);
    try (split; [discriminate | lia]).
  unfold F64.leb, SFleb; cbn.
  rewrite compare_cont_Eq.
  destruct (Z.compare_spec ex ey), (Pos.compare_spec mx my);
    split; intros; try discriminate; try reflexivity; try lia.
Qed.

End AbsOrder.

(** ** [max(xs, key=abs)] returns the first element of greatest magnitude *)

Section MaxKeyAbs.

Lemma key_lt_trans a b c : key_lt a b -> key_lt b c -> key_lt a c.
Proof.
  destruct a as [[? ?] ?], b as [[? ?] ?], c as [[? ?] ?]; unfold key_lt; lia.
Qed.

Lemma key_le_lt_trans a b c : ~ key_lt b a -> key_lt b c -> key_lt a c.
Proof.
  destruct a as [[? ?] ?], b as [[? ?] ?], c as [[? ?] ?]; unfold key_lt; lia.
Qed.

Lemma key_le_trans a b c : ~ key_lt b a -> ~ key_lt c b -> ~ key_lt c a.
Proof.
  destruct a as [[? ?] ?], b as [[? ?] ?], c as [[? ?] ?]; unfold key_lt; lia.
Qed.

Lemma key_lt_irrefl a : ~ key_lt a a.
Proof. destruct a as [[? ?] ?]; unfold key_lt; lia. Qed.

(** The loop invariant of [max]: [best] sits at index [i] of the prefix
    [pre] already scanned, dominates it, and strictly dominates what
    precedes index [i]. *)
Lemma max_key_abs_from_inv (xs pre : list float) (best : float) (i : nat) :
  no_nan pre -> no_nan xs ->
  pre !! i = Some best ->
  (forall j y, pre !! j = Some y -> ~ key_lt (abs_key best) (abs_key y)) ->
  (forall j y, (j < i)%nat -> pre !! j = Some y ->
               key_lt (abs_key y) (abs_key best)) ->
  exists k : nat,
    (pre ++ xs) !! k = Some (max_key_abs_from best xs) /\
    (forall j y, (pre ++ xs) !! j = Some y ->
                 ~ key_lt (abs_key (max_key_abs_from best xs)) (abs_key y)) /\
    (forall j y, (j < k)%nat -> (pre ++ xs) !! j = Some y ->
                 key_lt (abs_key y) (abs_key (max_key_abs_from best xs))).
Proof.
  revert pre best i.
  induction xs as [|x xs IH]; intros pre best i Hpre Hxs Hi Hdom Hstrict.
  - exists i. rewrite app_nil_r. auto.
  - assert (Hbest : F64.is_nan best = false).
    { eapply Forall_lookup_1 in Hpre; eauto. }
    apply Forall_cons in Hxs as [Hx Hxs].
    replace (pre ++ x :: xs) with ((pre ++ [x]) ++ xs)
      by (rewrite <- app_assoc; reflexivity).
    assert (Hpre' : no_nan (pre ++ [x])).
    { apply Forall_app; split; [assumption | repeat constructor; assumption]. }
    cbn [max_key_abs_from].
    destruct (F64.ltb (F64.abs best) (F64.abs x)) eqn:Hlt.
    + apply ltb_abs_key in Hlt; try assumption.
      apply (IH (pre ++ [x]) x (length pre)); try assumption.
      * rewrite lookup_app_r, Nat.sub_diag by lia. reflexivity.
      * intros j y Hj.
        apply lookup_app_Some in Hj as [Hj | [_ Hj]].
        -- intros Hc.
           apply (key_lt_irrefl (abs_key y)).
           eapply key_lt_trans; [ | exact Hc].
           eapply key_le_lt_trans; [ apply (Hdom j y Hj) | assumption].
        -- destruct (j - length pre)%nat; cbn in Hj; [ | discriminate].
           injection Hj as <-. apply key_lt_irrefl.
      * intros j y Hj Hy.
        rewrite lookup_app_l in Hy by assumption.
        eapply key_le_lt_trans; [ apply (Hdom j y Hy) | assumption].
    + assert (Hnlt : ~ key_lt (abs_key best) (abs_key x)).
      { intros Hc. apply ltb_abs_key in Hc; try assumption. congruence. }
      apply (IH (pre ++ [x]) best i); try assumption.
      * apply lookup_app_l_Some. assumption.
      * intros j y Hj.
        apply lookup_app_Some in Hj as [Hj | [_ Hj]].
        -- apply (Hdom j y Hj).
        -- destruct (j - length pre)%nat; cbn in Hj; [ | discriminate].
           injection Hj as <-. assumption.
      * intros j y Hj Hy.
        apply lookup_lt_Some in Hi.
        rewrite lookup_app_l in Hy by lia.
        apply (Hstrict j y Hj Hy).
Qed.

Lemma max_key_abs_first_max (w : list float) :
  w <> [] -> no_nan w ->
  exists p, max_key_abs w = Ok p /\ first_max_abs w p.
Proof.
  intros Hne Hnan.
  destruct w as [|x xs]; [congruence | clear Hne].
  exists (max_key_abs_from x xs). split; [reflexivity | ].
  apply Forall_cons in Hnan as [Hx Hxs].
  destruct (max_key_abs_from_inv xs [x] x 0) as (k & Hk & Hdom & Hstrict).
  - repeat constructor; assumption.
  - assumption.
  - reflexivity.
  - intros [|j] y Hj; cbn in Hj; [ | discriminate].
    injection Hj as <-. apply key_lt_irrefl.
  - intros j y Hj. lia.
  - assert (Hp : F64.is_nan (max_key_abs_from x xs) = false).
    { assert (Hall : no_nan (x :: xs)) by (constructor; assumption).
      eapply Forall_lookup_1 in Hall; [exact Hall | exact Hk]. }
    exists k. split; [exact Hk | split].
    + intros j y Hj. apply leb_abs_key; try assumption.
      * assert (Hall : no_nan (x :: xs)) by (constructor; assumption).
        eapply Forall_lookup_1 in Hall; [exact Hall | exact Hj].
      * apply (Hdom j y Hj).
    + intros j y Hlt Hj. apply ltb_abs_key; try assumption.
      * assert (Hall : no_nan (x :: xs)) by (constructor; assumption).
        eapply Forall_lookup_1 in Hall; [exact Hall | exact Hj].
      * apply (Hstrict j y Hlt Hj).
Qed.

End MaxKeyAbs.

(** ** Rounding a positive integer mantissa to binary64 *)

Section Rounding.

Lemma iter_pos_nat {A : Type} (f : A -> A) (p : positive) (x : A) :
  SpecFloat.iter_pos f p x = Nat.iter (Pos.to_nat p) f x.
Proof.
  revert x. induction p as [p IH | p IH | ]; intros x; cbn [SpecFloat.iter_pos].
  - rewrite !IH, Pos2Nat.inj_xI.
    replace (S (2 * Pos.to_nat p)) with (Pos.to_nat p + (Pos.to_nat p + 1))%nat by lia.
    rewrite !Nat.iter_add. reflexivity.
  - rewrite !IH, Pos2Nat.inj_xO.
    replace (2 * Pos.to_nat p)%nat with (Pos.to_nat p + Pos.to_nat p)%nat by lia.
    rewrite Nat.iter_add. reflexivity.
  - reflexivity.
Qed.

Lemma shr_1_m (r : shr_record) :
  0 <= shr_m r -> shr_m (shr_1 r) = shr_m r / 2.
Proof.
  destruct r as [m rb sb]; cbn [shr_m]. intros Hm.
  rewrite <- Z.div2_div.
  destruct m as [|[p|p|]|p]; try reflexivity; lia.
Qed.

Lemma iter_shr_1_m (n : nat) (r : shr_record) :
  0 <= shr_m r ->
  shr_m (Nat.iter n shr_1 r) = shr_m r / 2 ^ Z.of_nat n.
Proof.
  intros Hm. induction n as [|n IH].
  - cbn. rewrite Z.div_1_r. reflexivity.
  - rewrite Nat.iter_succ, shr_1_m.
    + rewrite IH, Z.div_div by lia.
      rewrite Nat2Z.inj_succ, Z.pow_succ_r by lia.
      f_equal. lia.
    + rewrite IH. apply Z.div_pos; lia.
Qed.

(** A right shift by [n >= 0] keeps the quotient by [2^n]. *)
Lemma shr_m_quot (m e n : Z) :
  0 <= m -> 0 <= n ->
  shr_m (fst (shr (Build_shr_record m false false) e n)) = m / 2 ^ n /\
  snd (shr (Build_shr_record m false false) e n) = e + n.
Proof.
  intros Hm Hn. destruct n as [|p|p]; cbn [shr fst snd]; try lia.
  - rewrite Z.div_1_r. split; [reflexivity | lia].
  - rewrite iter_pos_nat, iter_shr_1_m by assumption.
    rewrite positive_nat_Z. split; reflexivity.
Qed.

Lemma digits2_pos_bounds (p : positive) :
  2 ^ (Zpos (digits2_pos p) - 1) <= Zpos p < 2 ^ Zpos (digits2_pos p).
Proof.
  induction p as [p IH | p IH | ]; cbn [digits2_pos].
  - rewrite Pos2Z.inj_succ.
    replace (Z.succ (Zpos (digits2_pos p)) - 1) with (Z.succ (Zpos (digits2_pos p) - 1)) by lia.
    rewrite !Z.pow_succ_r by lia. lia.
  - rewrite Pos2Z.inj_succ.
    replace (Z.succ (Zpos (digits2_pos p)) - 1) with (Z.succ (Zpos (digits2_pos p) - 1)) by lia.
    rewrite !Z.pow_succ_r by lia. lia.
  - cbn. lia.
Qed.

Lemma digits2_pos_unique (p : positive) (k : Z) :
  2 ^ (k - 1) <= Zpos p < 2 ^ k -> Zpos (digits2_pos p) = k.
Proof.
  intros [Hlo Hhi].
  pose proof (digits2_pos_bounds p) as [Hlo' Hhi'].
  assert (0 < k).
  { destruct (Z_lt_le_dec 0 k) as [?|Hk]; [assumption | ].
    destruct (Z.eq_dec k 0) as [-> | ?]; [cbn in Hhi; lia | ].
    rewrite Z.pow_neg_r in Hhi by lia. lia. }
  destruct (Z.lt_trichotomy (Zpos (digits2_pos p)) k) as [Hlt | [Heq | Hgt]];
    [ | assumption | ].
  - assert (2 ^ Zpos (digits2_pos p) <= 2 ^ (k - 1))
      by (apply Z.pow_le_mono_r; lia).
    lia.
  - assert (2 ^ k <= 2 ^ (Zpos (digits2_pos p) - 1))
      by (apply Z.pow_le_mono_r; lia).
    lia.
Qed.

Lemma pos_iter_xO (m d : positive) :
  Zpos (Pos.iter xO m d) = Zpos m * 2 ^ Zpos d.
Proof.
  induction d as [|d IH] using Pos.peano_ind.
  - cbn. lia.
  - rewrite Pos.iter_succ, Pos2Z.inj_xO, IH, Pos2Z.inj_succ.
    rewrite Z.pow_succ_r by lia. lia.
Qed.

Lemma round_nearest_even_cases (m : Z) (l : location) :
  round_nearest_even m l = m \/ round_nearest_even m l = m + 1.
Proof. destruct l as [|[| |]]; cbn; try destruct (Z.even m); auto. Qed.

Lemma fexp_normal (d : Z) :
  -1074 <= d - 53 -> fexp F64.prec F64.emax d = d - 53.
Proof. unfold fexp, emin, F64.prec, F64.emax. lia. Qed.

(** The second normalisation step of [binary_round_aux]: a mantissa of 53
    digits is kept, the mantissa [2^53] is renormalised. *)
Lemma renormalise (m1 e' : Z) :
  2 ^ 52 <= m1 <= 2 ^ 53 -> -1074 <= e' -> e' + 1 <= 971 ->
  exists (m2 : positive) (e2 : Z),
    (let '(mrs, e'') := shr_fexp F64.prec F64.emax m1 e' loc_Exact in
     match shr_m mrs with
     | Z0 => S754_zero false
     | Zpos m => if e'' <=? F64.emax - F64.prec
                 then S754_finite false m e'' else S754_infinity false
     | Zneg _ => S754_nan
     end) = S754_finite false m2 e2 /\
    ((e2 = e' /\ Zpos m2 = m1 /\ m1 < 2 ^ 53) \/
     (e2 = e' + 1 /\ Zpos m2 = 2 ^ 52 /\ m1 = 2 ^ 53)).
Proof.
  intros Hm He Hov.
  destruct m1 as [|p1|p1]; try lia.
  unfold shr_fexp. cbn [Zdigits2 shr_record_of_loc].
  destruct (Z_lt_le_dec (Zpos p1) (2 ^ 53)) as [Hlt | Hge].
  - rewrite (digits2_pos_unique p1 53) by (change (53 - 1) with 52; lia).
    rewrite fexp_normal by lia.
    replace (53 + e' - 53 - e') with 0 by lia.
    cbn [shr shr_m].
    exists p1, e'. split; [ | left; repeat split; assumption].
    unfold F64.emax, F64.prec.
    destruct (e' <=? 1024 - 53) eqn:Hle; [reflexivity | lia].
  - assert (Heq : Zpos p1 = 2 ^ 53) by lia.
    rewrite (digits2_pos_unique p1 54) by (change (54 - 1) with 53; lia).
    rewrite fexp_normal by lia.
    replace (54 + e' - 53 - e') with 1 by lia.
    destruct (shr_m_quot (Zpos p1) e' 1) as [Hq He']; try lia.
    destruct (shr {| shr_m := Zpos p1; shr_r := false; shr_s := false |} e' 1)
      as [mrs e''] eqn:Hs.
    cbn [fst snd] in Hq, He'. subst e''.
    rewrite Hq, Heq. change (2 ^ 53 / 2 ^ 1) with (Zpos 4503599627370496).
    exists 4503599627370496%positive, (e' + 1).
    split; [ | right; repeat split; reflexivity].
    unfold F64.emax, F64.prec.
    destruct (e' + 1 <=? 1024 - 53) eqn:Hle; [reflexivity | lia].
Qed.

(** Rounding the positive integer [M * 2^e] to binary64, in the normal
    range: the result is the truncated mantissa [q] or its successor, with
    a renormalisation when the successor reaches [2^53]. *)
Lemma binary_round_pos (M : positive) (e : Z) :
  let D := Zpos (digits2_pos M) in
  let n := D - 53 in
  let q := Zpos M / 2 ^ n in
  53 <= D -> -1074 <= e + n -> e + n + 1 <= 971 ->
  exists (m2 : positive) (e2 : Z),
    binary_round F64.prec F64.emax false M e = S754_finite false m2 e2 /\
    ((e2 = e + n /\ (Zpos m2 = q \/ Zpos m2 = q + 1) /\ Zpos m2 < 2 ^ 53) \/
     (e2 = e + n + 1 /\ Zpos m2 = 2 ^ 52 /\ q + 1 = 2 ^ 53)).
Proof.
  intros D n q HD Hlo Hhi.
  pose proof (digits2_pos_bounds M) as [HMlo HMhi]. fold D in HMlo, HMhi.
  assert (Hpow : 2 ^ (D - 1) = 2 ^ 52 * 2 ^ n).
  { rewrite <- Z.pow_add_r by lia. f_equal. lia. }
  assert (Hpow' : 2 ^ D = 2 ^ 53 * 2 ^ n).
  { rewrite <- Z.pow_add_r by lia. f_equal. lia. }
  assert (Hn : 0 < 2 ^ n) by (apply Z.pow_pos_nonneg; lia).
  assert (Hq : 2 ^ 52 <= q < 2 ^ 53).
  { split.
    - apply Z.div_le_lower_bound; lia.
    - apply Z.div_lt_upper_bound; lia. }
  unfold binary_round.
  assert (Hf : fexp F64.prec F64.emax (Zpos (digits2_pos M) + e) = e + n).
  { rewrite fexp_normal; unfold n, D; lia. }
  rewrite Hf.
  unfold shl_align.
  destruct (e + n - e) as [|k|k] eqn:Hk; try lia;
    unfold binary_round_aux, shr_fexp at 1;
    cbn [Zdigits2 shr_record_of_loc]; rewrite Hf;
    (destruct (shr_m_quot (Zpos M) e (e + n - e)) as [Hsq Hse]; [lia | lia | ]);
    (destruct (shr {| shr_m := Zpos M; shr_r := false; shr_s := false |} e (e + n - e))
      as [mrs e'] eqn:Hs);
    cbn [fst snd] in Hsq, Hse; subst e';
    replace (e + n - e) with n in Hsq by lia; fold q in Hsq;
    rewrite Hsq;
    set (m1 := round_nearest_even q (loc_of_shr_record mrs));
    (assert (Hm1 : m1 = q \/ m1 = q + 1) by apply round_nearest_even_cases);
    (destruct (renormalise m1 (e + (e + n - e))) as (m2 & e2 & Hres & Hcases);
      [lia | lia | lia | ]);
    exists m2, e2; (split; [exact Hres | ]);
    replace (e + (e + n - e)) with (e + n) in Hcases by lia;
    destruct Hcases as [(He2 & Hm2 & Hlt) | (He2 & Hm2 & Heq)];
    [ left; repeat split; [assumption | lia | lia]
    | right; repeat split; [assumption | assumption | lia]
    | left; repeat split; [assumption | lia | lia]
    | right; repeat split; [assumption | assumption | lia] ].
Qed.

(** Without a bound on the exponent the result may be an infinity, but
    a positive mantissa never rounds to zero. *)
Lemma renormalise_nonzero (m1 e' : Z) :
  2 ^ 52 <= m1 <= 2 ^ 53 -> -1074 <= e' ->
  F64.is_zero
    (let '(mrs, e'') := shr_fexp F64.prec F64.emax m1 e' loc_Exact in
     match shr_m mrs with
     | Z0 => S754_zero false
     | Zpos m => if e'' <=? F64.emax - F64.prec
                 then S754_finite false m e'' else S754_infinity false
     | Zneg _ => S754_nan
     end) = false.
Proof.
  intros Hm He.
  destruct m1 as [|p1|p1]; try lia.
  unfold shr_fexp. cbn [Zdigits2 shr_record_of_loc].
  destruct (Z_lt_le_dec (Zpos p1) (2 ^ 53)) as [Hlt | Hge].
  - rewrite (digits2_pos_unique p1 53) by (change (53 - 1) with 52; lia).
    rewrite fexp_normal by lia.
    replace (53 + e' - 53 - e') with 0 by lia.
    cbn [shr shr_m].
    destruct (e' <=? F64.emax - F64.prec); reflexivity.
  - assert (Heq : Zpos p1 = 2 ^ 53) by lia.
    rewrite (digits2_pos_unique p1 54) by (change (54 - 1) with 53; lia).
    rewrite fexp_normal by lia.
    replace (54 + e' - 53 - e') with 1 by lia.
    destruct (shr_m_quot (Zpos p1) e' 1) as [Hq He']; try lia.
    destruct (shr {| shr_m := Zpos p1; shr_r := false; shr_s := false |} e' 1)
      as [mrs e''] eqn:Hs.
    cbn [fst snd] in Hq, He'. subst e''.
    rewrite Hq, Heq. change (2 ^ 53 / 2 ^ 1) with (Zpos 4503599627370496).
    destruct (e' + 1 <=? F64.emax - F64.prec); reflexivity.
Qed.

Lemma binary_round_aux_nonzero (M : positive) (e : Z) :
  53 <= Zpos (digits2_pos M) ->
  -1074 <= e + (Zpos (digits2_pos M) - 53) ->
  F64.is_zero (binary_round_aux F64.prec F64.emax false (Zpos M) e loc_Exact)
  = false.
Proof.
  set (D := Zpos (digits2_pos M)). set (n := D - 53).
  intros HD Hlo.
  pose proof (digits2_pos_bounds M) as [HMlo HMhi]. fold D in HMlo, HMhi.
  assert (Hpow : 2 ^ (D - 1) = 2 ^ 52 * 2 ^ n).
  { rewrite <- Z.pow_add_r by (unfold n; lia). f_equal. unfold n. lia. }
  assert (Hpow' : 2 ^ D = 2 ^ 53 * 2 ^ n).
  { rewrite <- Z.pow_add_r by (unfold n; lia). f_equal. unfold n. lia. }
  assert (Hn : 0 < 2 ^ n) by (apply Z.pow_pos_nonneg; unfold n; lia).
  assert (Hq : 2 ^ 52 <= Zpos M / 2 ^ n < 2 ^ 53).
  { split.
    - apply Z.div_le_lower_bound; lia.
    - apply Z.div_lt_upper_bound; lia. }
  assert (Hf : fexp F64.prec F64.emax (Zpos (digits2_pos M) + e) = e + n).
  { rewrite fexp_normal; unfold n, D; lia. }
  unfold binary_round_aux, shr_fexp at 1.
  cbn [Zdigits2 shr_record_of_loc]. rewrite Hf.
  destruct (shr_m_quot (Zpos M) e (e + n - e)) as [Hsq Hse];
    [lia | unfold n; lia | ].
  destruct (shr {| shr_m := Zpos M; shr_r := false; shr_s := false |} e (e + n - e))
    as [mrs e'] eqn:Hs.
  cbn [fst snd] in Hsq, Hse. subst e'.
  replace (e + n - e) with n in Hsq by lia. rewrite Hsq.
  set (m1 := round_nearest_even (Zpos M / 2 ^ n) (loc_of_shr_record mrs)).
  assert (Hm1 : m1 = Zpos M / 2 ^ n \/ m1 = Zpos M / 2 ^ n + 1)
    by apply round_nearest_even_cases.
  apply renormalise_nonzero; lia.
Qed.

(** [float(n)] of a positive integer is not zero. *)
Lemma of_Z_pos_not_zero (n : Z) : 0 < n -> F64.is_zero (F64.of_Z n) = false.
Proof.
  intros Hn. destruct n as [|p|p]; try lia.
  unfold F64.of_Z. cbn [binary_normalize]. unfold binary_round.
  pose proof (digits2_pos_bounds p) as [Hlo Hhi].
  set (D := Zpos (digits2_pos p)) in *.
  assert (HD : 1 <= D) by (unfold D; lia).
  rewrite Z.add_0_r, fexp_normal by lia.
  unfold shl_align.
  destruct (D - 53 - 0) as [|k|k] eqn:Hk.
  - apply binary_round_aux_nonzero; fold D; lia.
  - apply binary_round_aux_nonzero; fold D; lia.
  - assert (Hmz : Zpos (digits2_pos (Pos.iter xO p k)) = 53).
    { apply digits2_pos_unique. rewrite pos_iter_xO.
      assert (Hp : 2 ^ (D - 1) * 2 ^ Zpos k = 2 ^ (53 - 1)).
      { rewrite <- Z.pow_add_r by lia. f_equal. lia. }
      assert (Hp' : 2 ^ D * 2 ^ Zpos k = 2 ^ 53).
      { rewrite <- Z.pow_add_r by lia. f_equal. lia. }
      assert (0 < 2 ^ Zpos k) by (apply Z.pow_pos_nonneg; lia).
      nia. }
    apply binary_round_aux_nonzero; rewrite Hmz; lia.
Qed.

End Rounding.

(** ** The brightness factor over the clamp range *)

(** Comparisons of mantissas are moved to [Z] before [lia] sees them. *)
Ltac pos2z :=
  repeat match goal with
    | H : (_ < _)%positive |- _ => apply Pos2Z.pos_lt_pos in H
    | H : @eq positive _ _ |- _ => apply (f_equal Zpos) in H
    end.

Section FactorRange.

Lemma valid_finite_bounds (s : bool) (m : positive) (e : Z) :
  valid_binary F64.prec F64.emax (S754_finite s m e) = true ->
  -1074 <= e /\ Zpos m < 2 ^ 53.
Proof.
  cbn [valid_binary]. unfold bounded, canonical_mantissa.
  intros H. apply andb_prop in H as [Hc _].
  apply Z.eqb_eq in Hc. unfold fexp, emin, F64.prec, F64.emax in Hc.
  split; [lia | ].
  pose proof (digits2_pos_bounds m) as [_ Hhi].
  assert (2 ^ Zpos (digits2_pos m) <= 2 ^ 53)
    by (apply Z.pow_le_mono_r; lia).
  lia.
Qed.

(** Magnitude at most [0.3], read off the two comparisons of the clamp. *)
Lemma clamp_range_finite (s : bool) (m : positive) (e : Z) :
  F64.leb (F64.opp f_0_3) (S754_finite s m e) = true ->
  F64.leb (S754_finite s m e) f_0_3 = true ->
  e < -54 \/ (e = -54 /\ Zpos m <= 5404319552844595).
Proof.
  unfold F64.leb, SFleb, f_0_3, F64.opp, SFopp, SFcompare, negb.
  destruct s; rewrite !compare_cont_Eq; intros H1 H2.
  - destruct (Z.compare_spec (-54) e); try discriminate; try lia.
    destruct (Pos.compare_spec 5404319552844595 m); try discriminate;
      pos2z; lia.
  - destruct (Z.compare_spec e (-54)); try discriminate; try lia.
    destruct (Pos.compare_spec m 5404319552844595); try discriminate;
      pos2z; lia.
Qed.

Lemma leb_finite_pos (m1 m2 : positive) (e1 e2 : Z) :
  F64.leb (S754_finite false m1 e1) (S754_finite false m2 e2) = true <->
  e1 < e2 \/ (e1 = e2 /\ Zpos m1 <= Zpos m2).
Proof.
  unfold F64.leb, SFleb, SFcompare. rewrite compare_cont_Eq.
  destruct (Z.compare_spec e1 e2), (Pos.compare_spec m1 m2);
    pos2z; split; intros; try discriminate; try reflexivity; lia.
Qed.

Lemma factor_in_range (c : float) :
  F64.is_number c ->
  F64.leb (F64.opp f_0_3) c = true ->
  F64.leb c f_0_3 = true ->
  F64.leb f_0_7_minus_0_3 (F64.add (F64.opp c) f_0_7) = true /\
  F64.leb (F64.add (F64.opp c) f_0_7) f_1_0 = true.
Proof.
  intros [Hvalid Hnan] Hlo Hhi.
  destruct c as [s|s| |s m e].
  - destruct s; vm_compute; auto.
  - destruct s; vm_compute in Hlo, Hhi; discriminate.
  - discriminate.
  - pose proof (valid_finite_bounds s m e Hvalid) as [He Hm].
    pose proof (clamp_range_finite s m e Hlo Hhi) as Hmag.
    clear Hlo Hhi Hvalid Hnan.
    unfold F64.add, SFadd, F64.opp, SFopp, f_0_7.
    cbv zeta.
    rewrite Z.min_l by lia.
    unfold shl_align. rewrite Z.sub_diag.
    destruct (e - -53) as [|d|d] eqn:Hd; try lia.
    cbn [fst].
    set (n' := -54 - e).
    assert (Hn' : 0 <= n') by (unfold n'; lia).
    assert (Hd' : Zpos d = n' + 1) by (unfold n'; lia).
    set (P := 2 ^ n').
    assert (HP : 0 < P) by (apply Z.pow_pos_nonneg; lia).
    assert (Hshift : Zpos (Pos.iter xO 6305039478318694%positive d)
                     = 12610078956637388 * P).
    { rewrite pos_iter_xO, Hd', Z.pow_add_r by lia. fold P. lia. }
    assert (HmP : Zpos m <= 5404319552844595 * P).
    { destruct Hmag as [Hlt | [Heq Hle]].
      - assert (2 <= P).
        { unfold P. change 2 with (2 ^ 1) at 1.
          apply Z.pow_le_mono_r; unfold n'; lia. }
        change (2 ^ 53) with 9007199254740992 in Hm. lia.
      - assert (P = 1) by (unfold P, n'; rewrite Heq; reflexivity). lia. }
    set (S := cond_Zopp (negb s) (Zpos m)
              + cond_Zopp false (Zpos (Pos.iter xO 6305039478318694%positive d))).
    assert (HS : 7205759403792793 * P <= S <= 18014398509481983 * P).
    { unfold S. cbn [cond_Zopp]. rewrite Hshift.
      destruct s; cbn [negb cond_Zopp]; lia. }
    destruct S as [|M|M] eqn:HSeq; try lia.
    cbn [binary_normalize].
    assert (Hpow53 : 2 ^ (53 + n') = 9007199254740992 * P).
    { rewrite Z.pow_add_r by lia. reflexivity. }
    assert (Hpow52 : 2 ^ (53 + n' - 1) = 4503599627370496 * P).
    { replace (53 + n' - 1) with (52 + n') by lia.
      rewrite Z.pow_add_r by lia. reflexivity. }
    assert (Hpow54 : 2 ^ (54 + n') = 18014398509481984 * P).
    { rewrite Z.pow_add_r by lia. reflexivity. }
    destruct (Z_lt_le_dec (Zpos M) (2 ^ (53 + n'))) as [Hsmall | Hbig].
    + assert (HD : Zpos (digits2_pos M) = 53 + n').
      { apply digits2_pos_unique. lia. }
      destruct (binary_round_pos M e) as (m2 & e2 & Hres & Hcases);
        rewrite ?HD; try (unfold n'; lia).
      rewrite Hres. rewrite HD in Hcases.
      replace (53 + n' - 53) with n' in Hcases by lia. fold P in Hcases.
      assert (Hq : 7205759403792793 <= Zpos M / P)
        by (apply Z.div_le_lower_bound; lia).
      unfold f_0_7_minus_0_3, f_1_0. rewrite !leb_finite_pos.
      destruct Hcases as [(He2 & Hm2 & Hlt) | (He2 & Hm2 & Heq)];
        unfold n' in He2; lia.
    + assert (HD : Zpos (digits2_pos M) = 54 + n').
      { apply digits2_pos_unique.
        replace (54 + n' - 1) with (53 + n') by lia. lia. }
      destruct (binary_round_pos M e) as (m2 & e2 & Hres & Hcases);
        rewrite ?HD; try (unfold n'; lia).
      rewrite Hres. rewrite HD in Hcases.
      unfold f_0_7_minus_0_3, f_1_0. rewrite !leb_finite_pos.
      change (2 ^ 52) with 4503599627370496 in Hcases.
      destruct Hcases as [(He2 & Hm2 & Hlt) | (He2 & Hm2 & Heq)];
        unfold n' in He2; lia.
Qed.

End FactorRange.

(** ** [np.clip] to the interval of the encoder *)

Section Clip.

Lemma SFcompare_swap (a b : float) :
  SFcompare b a = option_map CompOpp (SFcompare a b).
Proof.
  destruct a as [sa|sa| |sa ma ea], b as [sb|sb| |sb mb eb];
    try reflexivity; try (destruct sa; reflexivity);
    try (destruct sb; reflexivity);
    try (destruct sa, sb; reflexivity).
  unfold SFcompare.
  pose proof (Pos.compare_antisym ma mb) as Hm.
  unfold Pos.compare in Hm. rewrite Hm, (Z.compare_antisym ea eb).
  destruct sa, sb, (ea ?= eb), (Pos.compare_cont Eq ma mb); reflexivity.
Qed.

Lemma ltb_leb (a b : float) : F64.ltb a b = true -> F64.leb a b = true.
Proof.
  unfold F64.ltb, F64.leb, SFltb, SFleb.
  destruct (SFcompare a b) as [[| |]|]; intros; congruence.
Qed.

Lemma ltb_asym (a b : float) : F64.ltb a b = true -> F64.ltb b a = false.
Proof.
  unfold F64.ltb, SFltb. rewrite (SFcompare_swap a b).
  destruct (SFcompare a b) as [[| |]|]; cbn; intros; congruence.
Qed.

Lemma leb_not_ltb_eq (a b : float) :
  F64.leb a b = true -> F64.ltb a b = false -> SFcompare a b = Some Eq.
Proof.
  unfold F64.ltb, F64.leb, SFltb, SFleb.
  destruct (SFcompare a b) as [[| |]|]; intros; congruence.
Qed.

(** Comparing equal to a finite value is being that value. *)
Lemma compare_Eq_finite (p : float) (s : bool) (m : positive) (e : Z) :
  SFcompare p (S754_finite s m e) = Some Eq -> p = S754_finite s m e.
Proof.
  destruct p as [sp|sp| |sp mp ep]; try discriminate;
    try (destruct s; discriminate); try (destruct sp; discriminate).
  unfold SFcompare. rewrite compare_cont_Eq.
  destruct sp, s; try discriminate;
    destruct (Z.compare_spec ep e); try discriminate;
    destruct (Pos.compare_spec mp m); try discriminate;
    intros _; subst; reflexivity.
Qed.

Lemma ltb_lo_hi : F64.ltb (F64.opp f_0_3) f_0_3 = true.
Proof. reflexivity. Qed.

(** Above the upper bound is above the lower bound. *)
Lemma above_hi_above_lo (p : float) :
  F64.ltb f_0_3 p = true -> F64.ltb (F64.opp f_0_3) p = true.
Proof.
  destruct p as [s|s| |s m e]; try discriminate;
    destruct s; try discriminate; reflexivity.
Qed.

(** The clamp of a number: the bound it crosses, or the number itself. *)
Lemma np_clip_clamp (p : float) :
  F64.is_nan p = false ->
  let c := np_clip p (F64.opp f_0_3) f_0_3 in
  (F64.ltb p (F64.opp f_0_3) = true -> c = F64.opp f_0_3) /\
  (F64.ltb f_0_3 p = true -> c = f_0_3) /\
  (F64.leb (F64.opp f_0_3) p = true -> F64.leb p f_0_3 = true -> c = p).
Proof.
  intros Hnan. unfold np_clip, np_maximum, np_minimum.
  rewrite Hnan. cbn [orb].
  repeat split.
  - intros Hlt. rewrite (ltb_asym _ _ Hlt).
    change (F64.is_nan (F64.opp f_0_3)) with false. cbn [orb].
    rewrite ltb_lo_hi. reflexivity.
  - intros Hgt. rewrite (above_hi_above_lo _ Hgt), Hnan. cbn [orb].
    rewrite (ltb_asym _ _ Hgt). reflexivity.
  - intros Hlo Hhi.
    destruct (F64.ltb (F64.opp f_0_3) p) eqn:Hlt.
    + rewrite Hnan. cbn [orb].
      destruct (F64.ltb p f_0_3) eqn:Hlt'; [reflexivity | ].
      symmetry. apply compare_Eq_finite.
      apply leb_not_ltb_eq; assumption.
    + change (F64.is_nan (F64.opp f_0_3)) with false. cbn [orb].
      rewrite ltb_lo_hi.
      symmetry.
      apply (compare_Eq_finite p true 5404319552844595 (-54)).
      change (SFcompare p (F64.opp f_0_3) = Some Eq).
      rewrite SFcompare_swap.
      rewrite (leb_not_ltb_eq _ _ Hlo Hlt). reflexivity.
Qed.

Lemma np_clip_range (p : float) :
  F64.is_number p ->
  let c := np_clip p (F64.opp f_0_3) f_0_3 in
  F64.is_number c /\
  F64.leb (F64.opp f_0_3) c = true /\ F64.leb c f_0_3 = true.
Proof.
  intros [Hvalid Hnan]. unfold np_clip, np_maximum, np_minimum.
  rewrite Hnan. cbn [orb].
  destruct (F64.ltb (F64.opp f_0_3) p) eqn:Hlt.
  - rewrite Hnan. cbn [orb].
    destruct (F64.ltb p f_0_3) eqn:Hlt'.
    + repeat split; try assumption; apply ltb_leb; assumption.
    + repeat split; reflexivity.
  - change (F64.is_nan (F64.opp f_0_3)) with false. cbn [orb].
    rewrite ltb_lo_hi. repeat split; reflexivity.
Qed.

End Clip.

(** ** The brightness factor of [encode_image] *)

(** C2, as amended. For every non-empty window of binary64 numbers,
    [max(window, key=abs)] is the first element of greatest magnitude, the
    factor handed to [adjust_brightness] is [0.7] plus the negation of that
    element clamped to [-0.3, 0.3], and the factor lies between
    [0.7 - 0.3], which binary64 rounds to [0.39999999999999997], and
    [1.0]. *)
Theorem brightness_factor_clamped (w : list float) :
  w <> [] ->
  Forall F64.is_number w ->
  exists p c f : float,
    first_max_abs w p /\
    c = np_clip p (F64.opp f_0_3) f_0_3 /\
    (F64.ltb p (F64.opp f_0_3) = true -> c = F64.opp f_0_3) /\
    (F64.ltb f_0_3 p = true -> c = f_0_3) /\
    (F64.leb (F64.opp f_0_3) p = true -> F64.leb p f_0_3 = true -> c = p) /\
    brightness_factor w = Ok f /\
    f = F64.add (F64.opp c) f_0_7 /\
    F64.leb f_0_7_minus_0_3 f = true /\
    F64.leb f f_1_0 = true.
Proof.
  intros Hne Hnum.
  assert (Hnan : no_nan w).
  { eapply Forall_impl; [exact Hnum | ]. intros x [_ Hx]. exact Hx. }
  destruct (max_key_abs_first_max w Hne Hnan) as (p & Hmax & Hfirst).
  assert (Hp : F64.is_number p).
  { destruct Hfirst as (i & Hi & _).
    eapply Forall_lookup_1 in Hnum; [exact Hnum | exact Hi]. }
  pose proof (np_clip_clamp p (proj2 Hp)) as (Hc1 & Hc2 & Hc3).
  pose proof (np_clip_range p Hp) as (Hcnum & Hclo & Hchi).
  pose proof (factor_in_range _ Hcnum Hclo Hchi) as [Hflo Hfhi].
  exists p, (np_clip p (F64.opp f_0_3) f_0_3),
    (F64.add (F64.opp (np_clip p (F64.opp f_0_3) f_0_3)) f_0_7).
  repeat split; try assumption.
  unfold brightness_factor. rewrite Hmax. reflexivity.
Qed.

Lemma brightness_factor_clamped_witness :
  exists p c f : float,
    first_max_abs [f_0_3; F64.opp f_0_3] p /\
    c = np_clip p (F64.opp f_0_3) f_0_3 /\
    (F64.ltb p (F64.opp f_0_3) = true -> c = F64.opp f_0_3) /\
    (F64.ltb f_0_3 p = true -> c = f_0_3) /\
    (F64.leb (F64.opp f_0_3) p = true -> F64.leb p f_0_3 = true -> c = p) /\
    brightness_factor [f_0_3; F64.opp f_0_3] = Ok f /\
    f = F64.add (F64.opp c) f_0_7 /\
    F64.leb f_0_7_minus_0_3 f = true /\
    F64.leb f f_1_0 = true.
Proof.
  apply (brightness_factor_clamped [f_0_3; F64.opp f_0_3]).
  - discriminate.
  - repeat constructor.
Defined.

(** C2, as stated, fails on the one-sample window [[0.3]]: the factor is
    [0.7 - 0.3 = 7205759403792793 / 2^54], which is below the binary64
    literal [0.4] and below the real number 2/5. *)
Lemma brightness_factor_below_0_4 :
  brightness_factor [f_0_3] = Ok (S754_finite false 7205759403792793 (-54)) /\
  F64.leb f_0_4 (S754_finite false 7205759403792793 (-54)) = false /\
  5 * 7205759403792793 < 2 * 2 ^ 54.
Proof. repeat split. Qed.

(** ** Shapes of arrays *)

Section Shapes.

Lemma has_shape_width {A : Type} (a : list (list A)) (h w : Z) :
  has_shape a h w -> 0 < h -> width a = w.
Proof.
  intros [Hh Hrows] Hpos. unfold height in Hh.
  destruct a as [|row a]; cbn in *; [lia | ].
  apply Forall_cons in Hrows as [Hrow _]. exact Hrow.
Qed.

Lemma has_shape_rectangular {A : Type} (a : list (list A)) (h w : Z) :
  has_shape a h w -> rectangular a.
Proof.
  intros [Hh Hrows]. split; [reflexivity | ].
  destruct a as [|row a]; [constructor | ].
  apply Forall_cons in Hrows as [Hrow Hrows'].
  cbn [width]. constructor; [reflexivity | ].
  eapply Forall_impl; [exact Hrows' | ]. cbn. intros r Hr. lia.
Qed.

Lemma has_shape_tabulate {A : Type} (h w : Z) (f : nat -> nat -> A) :
  0 <= h -> 0 <= w -> has_shape (tabulate h w f) h w.
Proof.
  intros Hh Hw. unfold has_shape, height, tabulate. split.
  - rewrite length_map, length_seq. lia.
  - apply Forall_forall. intros row Hrow.
    apply list_elem_of_In, in_map_iff in Hrow as (y & <- & _).
    rewrite length_map, length_seq. lia.
Qed.

Lemma has_shape_map_px {A B : Type} (f : A -> B) (a : list (list A)) (h w : Z) :
  has_shape a h w -> has_shape (map_px f a) h w.
Proof.
  intros [Hh Hrows]. unfold has_shape, height, map_px in *. split.
  - rewrite length_map. exact Hh.
  - apply Forall_forall. intros row Hrow.
    apply list_elem_of_In, in_map_iff in Hrow as (r & <- & Hr).
    rewrite length_map.
    rewrite Forall_forall in Hrows. apply Hrows, list_elem_of_In, Hr.
Qed.

Lemma has_shape_zip_px {A B C : Type} (f : A -> B -> C) (a : list (list A))
    (b : list (list B)) (h w : Z) :
  has_shape a h w -> has_shape b h w -> has_shape (zip_px f a b) h w.
Proof.
  intros [Ha Hra] [Hb Hrb]. unfold has_shape, height, zip_px in *. split.
  - rewrite length_zip_with. lia.
  - apply Forall_forall. intros row Hrow.
    apply list_elem_of_lookup in Hrow as [i Hi].
    apply lookup_zip_with_Some in Hi as (ra & rb & -> & Hia & Hib).
    rewrite length_zip_with.
    eapply Forall_lookup_1 in Hra; [ | exact Hia].
    eapply Forall_lookup_1 in Hrb; [ | exact Hib].
    cbn in Hra, Hrb. lia.
Qed.

Lemma has_shape_imap2 {A B : Type} (f : nat -> nat -> A -> B) (a : list (list A)) (h w : Z) :
  has_shape a h w ->
  has_shape (imap (fun y row => imap (f y) row) a) h w.
Proof.
  intros [Hh Hrows]. unfold has_shape, height in *. split.
  - rewrite length_imap. exact Hh.
  - apply Forall_forall. intros row Hrow.
    apply list_elem_of_lookup in Hrow as [i Hi].
    rewrite list_lookup_imap in Hi.
    destruct (a !! i) as [r|] eqn:Hr; [ | discriminate].
    cbn in Hi. injection Hi as <-.
    rewrite length_imap.
    eapply Forall_lookup_1 in Hrows; [ | exact Hr]. exact Hrows.
Qed.


End Shapes.

Section ResizeShape.

Context `{OpenCV}.

Lemma cv2_resize_shape (src out : image) (w h : Z) :
  rectangular src -> cv2_resize src w h = Ok out ->
  has_shape out h w /\ 0 < h /\ 0 < w.
Proof.
  intros Hrect. unfold cv2_resize.
  destruct ((w <=? 0) || (h <=? 0) || (height src <=? 0) || (width src <=? 0))
    eqn:Hbad; [discriminate | ].
  apply orb_false_elim in Hbad as [Hbad Hsw].
  apply orb_false_elim in Hbad as [Hbad Hsh].
  apply orb_false_elim in Hbad as [Hw0 Hh0].
  apply Z.leb_gt in Hsw, Hsh, Hw0, Hh0.
  destruct ((w =? width src) && (h =? height src)) eqn:Hsame; intros [= <-].
  - apply andb_prop in Hsame as [Hw Hh].
    apply Z.eqb_eq in Hw, Hh. subst w h.
    split; [exact Hrect | split; assumption].
  - split; [apply has_shape_tabulate; lia | split; assumption].
Qed.

Lemma cv2_resize_gray_shape (src out : gray) (w h : Z) :
  rectangular src -> cv2_resize_gray src w h = Ok out ->
  has_shape out h w /\ 0 < h /\ 0 < w.
Proof.
  intros Hrect. unfold cv2_resize_gray.
  destruct ((w <=? 0) || (h <=? 0) || (height src <=? 0) || (width src <=? 0))
    eqn:Hbad; [discriminate | ].
  apply orb_false_elim in Hbad as [Hbad Hsw].
  apply orb_false_elim in Hbad as [Hbad Hsh].
  apply orb_false_elim in Hbad as [Hw0 Hh0].
  apply Z.leb_gt in Hsw, Hsh, Hw0, Hh0.
  destruct ((w =? width src) && (h =? height src)) eqn:Hsame; intros [= <-].
  - apply andb_prop in Hsame as [Hw Hh].
    apply Z.eqb_eq in Hw, Hh. subst w h.
    split; [exact Hrect | split; assumption].
  - split; [apply has_shape_tabulate; lia | split; assumption].
Qed.

Lemma cv2_resize_ok (src : image) (w h : Z) :
  0 < w -> 0 < h -> 0 < height src -> 0 < width src ->
  exists out, cv2_resize src w h = Ok out.
Proof.
  intros Hw Hh Hsh Hsw. unfold cv2_resize.
  destruct (w <=? 0) eqn:?, (h <=? 0) eqn:?, (height src <=? 0) eqn:?,
    (width src <=? 0) eqn:?; try lia.
  cbn [orb]. destruct ((w =? width src) && (h =? height src)); eauto.
Qed.

End ResizeShape.

(** ** Reasoning about outcomes *)

Lemma bind_Ok {A B : Type} (m : result A) (k : A -> result B) (b : B) :
  (m ≫= k) = Ok b -> exists a, m = Ok a /\ k a = Ok b.
Proof. destruct m as [a|e]; [exists a; split; [reflexivity | assumption] | discriminate]. Qed.

Lemma bind_Ok_l {A B : Type} (m : result A) (k : A -> result B) (a : A) :
  m = Ok a -> (m ≫= k) = k a.
Proof. intros ->. reflexivity. Qed.

Lemma bind_Raise_l {A B : Type} (m : result A) (k : A -> result B) (e : exn) :
  m = Raise e -> (m ≫= k) = Raise e.
Proof. intros ->. reflexivity. Qed.

Ltac inv_bind H :=
  let a := fresh "a" in
  let Ha := fresh "Ha" in
  apply bind_Ok in H as (a & Ha & H).

Lemma mapM_Ok_lookup {A B : Type} (f : A -> result B) (l : list A) (ys : list B) :
  mapM f l = Ok ys ->
  length ys = length l /\
  forall (i : nat) (x : A), l !! i = Some x ->
    exists y, f x = Ok y /\ ys !! i = Some y.
Proof.
  revert ys. induction l as [|x0 l IH]; intros ys Hm.
  - injection Hm as <-. split; [reflexivity | ]. intros i x Hi. discriminate.
  - cbn [mapM] in Hm.
    apply bind_Ok in Hm as (y0 & Hy0 & Hm).
    apply bind_Ok in Hm as (ys0 & Hys0 & Hm).
    injection Hm as <-.
    destruct (IH _ Hys0) as [Hlen Hall].
    split; [cbn; lia | ].
    intros [|i] x Hi; cbn in Hi.
    + injection Hi as <-. exists y0. split; [assumption | reflexivity].
    + apply (Hall i x Hi).
Qed.

Lemma mapM_is_Ok {A B : Type} (f : A -> result B) (l : list A) :
  Forall (fun x => is_Ok (f x)) l -> is_Ok (mapM f l).
Proof.
  induction 1 as [|a l [b Hb] _ [bs Hbs]].
  - exists []. reflexivity.
  - exists (b :: bs). cbn [mapM]. rewrite Hb. simpl. rewrite Hbs. reflexivity.
Qed.

(** ** The resize policy of [process_image] *)

Section ResizePolicy.

Lemma quot_pow2_succ (x : Z) (k : nat) :
  Z.quot (Z.quot x 2) (2 ^ Z.of_nat k) = Z.quot x (2 ^ Z.of_nat (S k)).
Proof.
  rewrite Z.quot_quot by (try apply Z.pow_nonzero; lia).
  rewrite Nat2Z.inj_succ, Z.pow_succ_r by lia. reflexivity.
Qed.

(** The loop of lines 59-61 stops after some number [k] of halvings, the
    first for which both dimensions are at most 500. *)
Lemma resized_dims_halvings (img_width img_height : Z) :
  exists k : nat,
    resized_dims img_width img_height
    = (Z.quot img_width (2 ^ Z.of_nat k), Z.quot img_height (2 ^ Z.of_nat k)) /\
    Z.quot img_width (2 ^ Z.of_nat k) <= 500 /\
    Z.quot img_height (2 ^ Z.of_nat k) <= 500 /\
    (forall j : nat, (j < k)%nat ->
       500 < Z.quot img_width (2 ^ Z.of_nat j) \/
       500 < Z.quot img_height (2 ^ Z.of_nat j)).
Proof.
  funelim (resized_dims img_width img_height).
  - destruct H as (k & Hk & Hw & Hh & Hmin).
    exists (S k). rewrite <- !quot_pow2_succ.
    repeat split; try assumption.
    intros [|j] Hj.
    + cbn. rewrite !Z.quot_1_r. assumption.
    + rewrite <- !quot_pow2_succ. apply Hmin. lia.
  - exists 0%nat. cbn. rewrite !Z.quot_1_r.
    repeat split; lia.
Qed.

Lemma resized_dims_pos_le (img_width img_height : Z) :
  0 <= img_width -> 0 <= img_height ->
  0 <= (resized_dims img_width img_height).1 <= img_width /\
  0 <= (resized_dims img_width img_height).2 <= img_height.
Proof.
  intros Hw Hh.
  destruct (resized_dims_halvings img_width img_height) as (k & -> & _).
  cbn [fst snd].
  assert (Hp : 0 < 2 ^ Z.of_nat k) by (apply Z.pow_pos_nonneg; lia).
  rewrite !Z.quot_div_nonneg by lia.
  repeat split; try (apply Z.div_pos; lia);
    apply Z.div_le_upper_bound; nia.
Qed.

End ResizePolicy.

Section ProcessImageShape.

Context `{OpenCV} `{Assets}.

Lemma split_layers_shape (img : image) (img_mask : option image)
    (w h : Z) (fg bg : image) :
  has_shape img h w -> 0 < h -> 0 < w ->
  (forall m, img_mask = Some m -> rectangular m) ->
  split_layers img img_mask w h = Ok (fg, bg) ->
  has_shape fg h w /\ has_shape bg h w /\
  (forall m, img_mask = Some m ->
     exists m', cv2_resize m w h = Ok m' /\ has_shape m' h w).
Proof.
  intros Himg Hh Hw Hmask. unfold split_layers.
  destruct img_mask as [m|].
  - intros Hs. inv_bind Hs. inv_bind Hs. inv_bind Hs.
    injection Hs as <- <-.
    destruct (cv2_resize_shape m a w h (Hmask m eq_refl) Ha) as (Hm' & _ & _).
    unfold cv2_bitwise_or in Ha0, Ha1.
    destruct (same_dims img img && _) in Ha0; [ | discriminate].
    destruct (same_dims img img && _) in Ha1; [ | discriminate].
    injection Ha0 as <-. injection Ha1 as <-.
    assert (Hbm : has_shape
              (map_px (fun v : Z => (v * 255) mod 256)
                 (map_px (fun v : Z => if 0 <? v then 1 else 0)
                    (cvtColor_RGB2GRAY a))) h w).
    { repeat apply has_shape_map_px. exact Hm'. }
    split; [ | split].
    + apply has_shape_zip_px; [apply has_shape_zip_px; assumption | exact Hbm].
    + apply has_shape_zip_px; [apply has_shape_zip_px; assumption | ].
      apply has_shape_map_px. exact Hbm.
    + intros m0 [= <-]. exists a. split; assumption.
  - intros [= <- <-]. split; [ | split].
    + exact Himg.
    + apply has_shape_tabulate; lia.
    + discriminate.
Qed.

Lemma set_slice_shape (a out : gray) (r0 r1 c0 c1 : Z) (v : gray) (h w : Z) :
  has_shape a h w -> set_slice a r0 r1 c0 c1 v = Ok out -> has_shape out h w.
Proof.
  intros Ha. unfold set_slice.
  destruct (slice_range (height a) r0 r1) as [rs rl].
  destruct (slice_range (width a) c0 c1) as [cs cl].
  destruct (broadcastable (height v) rl && broadcastable (width v) cl);
    [ | discriminate].
  intros [= <-]. apply has_shape_imap2. exact Ha.
Qed.

Lemma add_sign_shape (bg out : image) (h w : Z) :
  has_shape bg h w -> 0 <= h -> 0 <= w ->
  add_sign bg h w = Ok out -> has_shape out h w.
Proof.
  intros Hbg Hh Hw. unfold add_sign, place_sign.
  intros Hs. inv_bind Hs. inv_bind Hs. injection Hs as <-.
  apply has_shape_zip_px; [exact Hbg | ].
  apply has_shape_map_px.
  eapply set_slice_shape; [ | exact Ha0].
  apply has_shape_tabulate; lia.
Qed.

(** What a successful [process_image] went through. *)
Lemma process_image_Ok (img : image) (img_mask : option image)
    (img' fg bg : image) :
  process_image img img_mask = Ok (img', fg, bg) ->
  let w := (resized_dims (width img) (height img)).1 in
  let h := (resized_dims (width img) (height img)).2 in
  cv2_resize img w h = Ok img' /\
  exists bg0, split_layers img' img_mask w h = Ok (fg, bg0) /\
              add_sign bg0 h w = Ok bg.
Proof.
  unfold process_image.
  destruct (resized_dims (width img) (height img)) as [w h].
  cbn [fst snd]. intros Hp.
  inv_bind Hp. inv_bind Hp. destruct a0 as [fg0 bg0].
  inv_bind Hp. injection Hp as <- <- <-.
  split; [exact Ha | ]. exists bg0. split; assumption.
Qed.

End ProcessImageShape.

(** C5. [process_image] halves both dimensions by integer division as long
    as either exceeds 500: whatever it returns has the dimensions of the
    first halving step [k] at which both are at most 500, the same for the
    resized image and for both layers, and a mask is resized to these
    dimensions before the layers are cut. *)
Theorem process_image_resize_policy `{OpenCV} `{Assets}
    (img : image) (img_mask : option image) (img' fg bg : image) :
  rectangular img ->
  (forall m, img_mask = Some m -> rectangular m) ->
  process_image img img_mask = Ok (img', fg, bg) ->
  exists k : nat,
    let w := Z.quot (width img) (2 ^ Z.of_nat k) in
    let h := Z.quot (height img) (2 ^ Z.of_nat k) in
    w <= 500 /\ h <= 500 /\
    (forall j : nat, (j < k)%nat ->
       500 < Z.quot (width img) (2 ^ Z.of_nat j) \/
       500 < Z.quot (height img) (2 ^ Z.of_nat j)) /\
    has_shape img' h w /\ has_shape fg h w /\ has_shape bg h w /\
    (forall m, img_mask = Some m ->
       exists m', cv2_resize m w h = Ok m' /\ has_shape m' h w).
Proof.
  intros Himg Hmask Hp.
  apply process_image_Ok in Hp as (Hresize & bg0 & Hsplit & Hsign).
  destruct (resized_dims_halvings (width img) (height img))
    as (k & Hdims & Hw & Hh & Hmin).
  rewrite Hdims in Hresize, Hsplit, Hsign. cbn [fst snd] in *.
  destruct (cv2_resize_shape _ _ _ _ Himg Hresize) as (Himg' & Hhpos & Hwpos).
  destruct (split_layers_shape _ _ _ _ _ _ Himg' Hhpos Hwpos Hmask Hsplit)
    as (Hfg & Hbg0 & Hm).
  exists k. cbv zeta.
  split; [exact Hw | ]. split; [exact Hh | ]. split; [exact Hmin | ].
  split; [exact Himg' | ]. split; [exact Hfg | ].
  split; [ | exact Hm].
  eapply add_sign_shape; [exact Hbg0 | lia | lia | exact Hsign].
Qed.

Lemma process_image_resize_policy_witness :
  exists img' fg bg : image,
    @process_image Reference.opencv Reference.sign_20x20
      (Reference.grey 44 501 9) (Some (Reference.grey 44 501 255))
    = Ok (img', fg, bg) /\
    exists k : nat,
      let w := Z.quot (width (Reference.grey 44 501 9)) (2 ^ Z.of_nat k) in
      let h := Z.quot (height (Reference.grey 44 501 9)) (2 ^ Z.of_nat k) in
      w <= 500 /\ h <= 500 /\
      (forall j : nat, (j < k)%nat ->
         500 < Z.quot (width (Reference.grey 44 501 9)) (2 ^ Z.of_nat j) \/
         500 < Z.quot (height (Reference.grey 44 501 9)) (2 ^ Z.of_nat j)) /\
      has_shape img' h w /\ has_shape fg h w /\ has_shape bg h w /\
      (forall m, Some (Reference.grey 44 501 255) = Some m ->
         exists m', @cv2_resize Reference.opencv m w h = Ok m' /\ has_shape m' h w).
Proof.
  destruct (@process_image Reference.opencv Reference.sign_20x20
              (Reference.grey 44 501 9) (Some (Reference.grey 44 501 255)))
    as [[[img' fg] bg]|e] eqn:E.
  - exists img', fg, bg. split; [reflexivity | ].
    apply (@process_image_resize_policy Reference.opencv Reference.sign_20x20
             (Reference.grey 44 501 9) (Some (Reference.grey 44 501 255))
             img' fg bg).
    + eapply has_shape_rectangular, (has_shape_tabulate 44 501); lia.
    + intros m [= <-].
      eapply has_shape_rectangular, (has_shape_tabulate 44 501); lia.
    + exact E.
  - vm_compute in E. discriminate E.
Defined.

(** ** [np.add] on arrays of one shape *)

Section NpAdd.

Lemma mapM_Ok_map {A B : Type} (f : A -> result B) (g : A -> B) (l : list A) :
  Forall (fun a => f a = Ok (g a)) l -> mapM f l = Ok (map g l).
Proof.
  induction 1 as [|a l Ha _ IH]; [reflexivity | ].
  cbn [mapM map]. rewrite Ha. cbn. rewrite IH. reflexivity.
Qed.

Lemma broadcast_with_same_length {A B C : Type} (f : A -> B -> result C)
    (g : A -> B -> C) (a : list A) (b : list B) :
  length a = length b ->
  Forall (fun ab => f ab.1 ab.2 = Ok (g ab.1 ab.2)) (zip a b) ->
  broadcast_with f a b = Ok (zip_with g a b).
Proof.
  intros Hlen Hall. unfold broadcast_with.
  rewrite (proj2 (Nat.eqb_eq _ _) Hlen).
  rewrite (mapM_Ok_map _ (fun ab => g ab.1 ab.2) _ Hall).
  f_equal. clear. revert b.
  induction a as [|x a IH]; intros [|y b]; cbn; try reflexivity.
  rewrite IH. reflexivity.
Qed.

Lemma np_add_same_shape (a b : image) (h w : Z) :
  has_shape a h w -> has_shape b h w ->
  np_add a b = Ok (zip_px add_px a b).
Proof.
  intros [Ha Hra] [Hb Hrb]. unfold np_add, zip_px, height in *.
  apply broadcast_with_same_length; [lia | ].
  apply Forall_forall. intros [ra rb] Hin. cbn [fst snd].
  apply list_elem_of_lookup in Hin as [i Hi].
  apply lookup_zip_with_Some in Hi as (ra' & rb' & [= <- <-] & Hia & Hib).
  eapply Forall_lookup_1 in Hra; [ | exact Hia].
  eapply Forall_lookup_1 in Hrb; [ | exact Hib].
  cbn in Hra, Hrb.
  apply broadcast_with_same_length; [lia | ].
  apply Forall_forall. intros; reflexivity.
Qed.

Lemma px_at_zip_px {A B C : Type} (f : A -> B -> C) (a : list (list A))
    (b : list (list B)) (y x : nat) :
  px_at (zip_px f a b) y x
  = p ← px_at a y x; q ← px_at b y x; Some (f p q).
Proof.
  unfold px_at, zip_px. rewrite lookup_zip_with.
  destruct (a !! y) as [ra|]; [ | reflexivity].
  destruct (b !! y) as [rb|]; cbn.
  - rewrite lookup_zip_with. reflexivity.
  - destruct (ra !! x); reflexivity.
Qed.

Lemma px_at_map_px {A B : Type} (f : A -> B) (a : list (list A)) (y x : nat) :
  px_at (map_px f a) y x = f <$> px_at a y x.
Proof.
  unfold px_at, map_px. rewrite list_lookup_fmap.
  destruct (a !! y) as [ra|]; cbn; [ | reflexivity].
  rewrite list_lookup_fmap. reflexivity.
Qed.

Lemma px_at_tabulate {A : Type} (h w : Z) (f : nat -> nat -> A) (y x : nat) :
  (Z.of_nat y < h) -> (Z.of_nat x < w) ->
  px_at (tabulate h w f) y x = Some (f y x).
Proof.
  intros Hy Hx. unfold px_at, tabulate.
  rewrite list_lookup_fmap, lookup_seq_lt by lia. cbn.
  rewrite list_lookup_fmap, lookup_seq_lt by lia. reflexivity.
Qed.

Lemma px_at_shape {A : Type} (a : list (list A)) (h w : Z) (y x : nat) :
  has_shape a h w ->
  is_Some (px_at a y x) <-> Z.of_nat y < h /\ Z.of_nat x < w.
Proof.
  intros [Hh Hrows]. unfold px_at, height in *.
  destruct (a !! y) as [row|] eqn:Hy; cbn.
  - eapply Forall_lookup_1 in Hrows; [ | exact Hy]. cbn in Hrows.
    apply lookup_lt_Some in Hy.
    rewrite lookup_lt_is_Some. lia.
  - apply lookup_ge_None in Hy. split.
    + intros [? ?]; discriminate.
    + lia.
Qed.


End NpAdd.

(** ** Foreground and background are complementary *)

Section Layers.

Context `{OpenCV} `{Assets}.

Lemma u8_image_px_at (img : list (list pixel)) (y x : nat) (p : pixel) :
  u8_image img -> px_at img y x = Some p -> u8_px p.
Proof.
  intros Himg. unfold px_at.
  destruct (img !! y) as [row|] eqn:Hy; simpl; [ | discriminate].
  intros Hx.
  eapply Forall_lookup_1 in Himg; [ | exact Hy].
  eapply Forall_lookup_1 in Himg; [ | exact Hx]. exact Himg.
Qed.




End Layers.


Lemma u8_image_grey (h w v : Z) : u8 v -> u8_image (Reference.grey h w v).
Proof.
  intros Hv. unfold u8_image, Reference.grey, tabulate.
  apply Forall_forall. intros row Hrow.
  apply list_elem_of_In, in_map_iff in Hrow as (y & <- & _).
  apply Forall_forall. intros p Hp.
  apply list_elem_of_In, in_map_iff in Hp as (x & <- & _).
  repeat split; apply Hv.
Qed.


(** ** Placing the sign *)

Section Sign.

Context `{OpenCV} `{Assets}.

Lemma px_at_imap2 {A B : Type} (f : nat -> nat -> A -> B)
    (a : list (list A)) (y x : nat) :
  px_at (imap (fun y row => imap (f y) row) a) y x = f y x <$> px_at a y x.
Proof.
  unfold px_at. rewrite list_lookup_imap.
  destruct (a !! y) as [row|]; simpl; [ | reflexivity].
  rewrite list_lookup_imap. reflexivity.
Qed.

(** The slice [n - a - 10 : n - 10] of an axis of length [n]. When the
    axis is long enough it is the [a] indices that end 10 before the end.
    When it is not, the negative start counts from the end: below 10 the
    stop does too, and the slice keeps its [a] indices, at another place,
    as long as [a + 10 <= 2 * n]; in every other case it is shorter than
    [a]. *)
Lemma sign_axis (n a : Z) :
  1 <= n -> 1 <= a ->
  (a + 10 <= n ->
   slice_range n (n - a - 10) (n - 10) = (n - a - 10, a)) /\
  (n < 10 -> a + 10 <= 2 * n ->
   slice_range n (n - a - 10) (n - 10) = (2 * n - a - 10, a)) /\
  (n < a + 10 -> 10 <= n \/ 2 * n < a + 10 ->
   0 <= (slice_range n (n - a - 10) (n - 10)).2 < a).
Proof.
  intros Hn Ha. unfold slice_range, slice_index.
  split; [ | split].
  - intros Hfit.
    destruct (n - a - 10 <? 0) eqn:H1; [lia | ].
    destruct (n - 10 <? 0) eqn:H2; [lia | ].
    f_equal; lia.
  - intros Hlow Hwrap.
    destruct (n - a - 10 <? 0) eqn:H1; [ | lia].
    destruct (n - 10 <? 0) eqn:H2; [ | lia].
    f_equal; lia.
  - intros Hshort Hcase. cbn [snd].
    destruct (n - a - 10 <? 0) eqn:H1; [ | lia].
    destruct (n - 10 <? 0) eqn:H2; lia.
Qed.

Lemma sign_img_shape :
  rectangular sign_png -> rectangular sign_img /\
  height sign_img = height sign_png /\ width sign_img = width sign_png.
Proof.
  intros Hrect. unfold sign_img. split; [ | split].
  - eapply has_shape_rectangular, has_shape_map_px. exact Hrect.
  - unfold height, map_px. rewrite length_map. reflexivity.
  - unfold width, map_px. destruct sign_png as [|row rows]; [reflexivity | ].
    cbn. rewrite length_map. reflexivity.
Qed.

Lemma adjusted_pos_nonempty :
  (1 <= adjusted_height -> 0 < height sign_img) /\
  (1 <= adjusted_width -> 0 < width sign_img).
Proof.
  unfold adjusted_height, adjusted_width. split; intros Hpos.
  - assert (Hnn : 0 <= height sign_img) by (unfold height; lia).
    destruct (Z.eq_dec (height sign_img) 0) as [Hz | ?]; [ | lia].
    rewrite Hz in Hpos. vm_compute in Hpos. congruence.
  - assert (Hnn : 0 <= width sign_img).
    { unfold width. destruct sign_img; lia. }
    destruct (Z.eq_dec (width sign_img) 0) as [Hz | ?]; [ | lia].
    rewrite Hz in Hpos. vm_compute in Hpos. congruence.
Qed.

(** The assignment of lines 86-88 on the region the two slices select:
    it writes the sign there when the extents agree (an extent of one is
    repeated), and raises otherwise. *)
Lemma place_sign_region (glyph : gray) (img_height img_width rs rl cs cl : Z) :
  has_shape glyph adjusted_height adjusted_width ->
  1 <= adjusted_height -> 1 <= adjusted_width ->
  1 <= img_height -> 1 <= img_width ->
  slice_range img_height (img_height - adjusted_height - 10) (img_height - 10)
  = (rs, rl) ->
  slice_range img_width (img_width - adjusted_width - 10) (img_width - 10)
  = (cs, cl) ->
  ((rl = adjusted_height \/ adjusted_height = 1) ->
   (cl = adjusted_width \/ adjusted_width = 1) ->
   exists canvas,
     place_sign glyph img_height img_width = Ok canvas /\
     has_shape canvas img_height img_width /\
     forall y x : nat,
       Z.of_nat y < img_height -> Z.of_nat x < img_width ->
       px_at canvas y x =
       Some (if (rs <=? Z.of_nat y) && (Z.of_nat y <? rs + rl)
                && (cs <=? Z.of_nat x) && (Z.of_nat x <? cs + cl)
             then at_yx glyph
                    (if adjusted_height =? 1 then 0 else Z.to_nat (Z.of_nat y - rs))
                    (if adjusted_width =? 1 then 0 else Z.to_nat (Z.of_nat x - cs))
             else 0)) /\
  ((rl <> adjusted_height /\ adjusted_height <> 1) \/
   (cl <> adjusted_width /\ adjusted_width <> 1) ->
   place_sign glyph img_height img_width = Raise ValueError).
Proof.
  intros Hglyph Hah Haw Hh Hw Hr Hc.
  set (ah := adjusted_height) in *. set (aw := adjusted_width) in *.
  assert (Hcanvas : has_shape (np_zeros2 img_height img_width)
                      img_height img_width)
    by (apply has_shape_tabulate; lia).
  unfold place_sign, set_slice. fold ah aw.
  rewrite (has_shape_width _ _ _ Hcanvas) by lia.
  destruct Hcanvas as [Hch Hcrows]. rewrite Hch, Hr, Hc.
  rewrite (has_shape_width _ _ _ Hglyph) by lia.
  destruct Hglyph as [Hgh Hgrows]. rewrite Hgh.
  unfold broadcastable. split.
  - intros Hrows Hcols.
    assert (Hb : ((ah =? rl) || (ah =? 1)) && ((aw =? cl) || (aw =? 1)) = true).
    { apply andb_true_intro. split; apply orb_true_intro.
      - destruct Hrows as [-> | ->]; [left | right]; apply Z.eqb_refl.
      - destruct Hcols as [-> | ->]; [left | right]; apply Z.eqb_refl. }
    rewrite Hb. eexists. split; [reflexivity | ]. split.
    + apply has_shape_imap2. apply has_shape_tabulate; lia.
    + intros y x Hy Hx. rewrite px_at_imap2.
      unfold np_zeros2. rewrite px_at_tabulate by lia. reflexivity.
  - intros Hbad.
    assert (Hb : ((ah =? rl) || (ah =? 1)) && ((aw =? cl) || (aw =? 1)) = false).
    { destruct Hbad as [[Hne H1] | [Hne H1]].
      - apply andb_false_intro1, orb_false_intro; apply Z.eqb_neq; lia.
      - apply andb_false_intro2, orb_false_intro; apply Z.eqb_neq; lia. }
    rewrite Hb. reflexivity.
Qed.

End Sign.

Lemma cv2_resize_gray_ok `{OpenCV} (src : gray) (w h : Z) :
  0 < w -> 0 < h -> 0 < height src -> 0 < width src ->
  exists out, cv2_resize_gray src w h = Ok out.
Proof.
  intros Hw Hh Hsh Hsw. unfold cv2_resize_gray.
  destruct (w <=? 0) eqn:?, (h <=? 0) eqn:?, (height src <=? 0) eqn:?,
    (width src <=? 0) eqn:?; try lia.
  cbn [orb]. destruct ((w =? width src) && (h =? height src)); eauto.
Qed.

(** C10, as amended. Along each axis the sign is written to the slice
    from [n - a - 10] to [n - 10], for an image of [n] and a scaled sign of
    [a] pixels. If [a + 10 <= n] the slice is the [a] pixels ending 10
    before the edge. If [n < 10] and [a + 10 <= 2 * n] both bounds count from
    the end and the slice still has [a] pixels, from [2 * n - a - 10] on: the
    sign is written there and no error is raised. Otherwise the slice is
    shorter than [a]. When on both axes the slice has the sign's extent, or
    the sign's extent is one, the sign fills the region the slices select
    and the background is blended with it; when on some axis neither is the
    case, the assignment raises [ValueError]. *)
Theorem add_sign_placement `{OpenCV} `{Assets}
    (img_background : image) (img_height img_width rs rl cs cl : Z) :
  rectangular sign_png ->
  has_shape img_background img_height img_width ->
  1 <= img_height -> 1 <= img_width ->
  1 <= adjusted_height -> 1 <= adjusted_width ->
  slice_range img_height (img_height - adjusted_height - 10) (img_height - 10)
  = (rs, rl) ->
  slice_range img_width (img_width - adjusted_width - 10) (img_width - 10)
  = (cs, cl) ->
  ((adjusted_height + 10 <= img_height ->
    rs = img_height - adjusted_height - 10 /\ rl = adjusted_height) /\
   (img_height < 10 -> adjusted_height + 10 <= 2 * img_height ->
    rs = 2 * img_height - adjusted_height - 10 /\ rl = adjusted_height) /\
   (img_height < adjusted_height + 10 ->
    10 <= img_height \/ 2 * img_height < adjusted_height + 10 ->
    0 <= rl < adjusted_height)) /\
  ((adjusted_width + 10 <= img_width ->
    cs = img_width - adjusted_width - 10 /\ cl = adjusted_width) /\
   (img_width < 10 -> adjusted_width + 10 <= 2 * img_width ->
    cs = 2 * img_width - adjusted_width - 10 /\ cl = adjusted_width) /\
   (img_width < adjusted_width + 10 ->
    10 <= img_width \/ 2 * img_width < adjusted_width + 10 ->
    0 <= cl < adjusted_width)) /\
  ((rl = adjusted_height \/ adjusted_height = 1) ->
   (cl = adjusted_width \/ adjusted_width = 1) ->
   exists glyph canvas : gray,
     cv2_resize_gray sign_img adjusted_width adjusted_height = Ok glyph /\
     place_sign glyph img_height img_width = Ok canvas /\
     (forall y x : nat,
        Z.of_nat y < img_height -> Z.of_nat x < img_width ->
        px_at canvas y x =
        Some (if (rs <=? Z.of_nat y) && (Z.of_nat y <? rs + rl)
                 && (cs <=? Z.of_nat x) && (Z.of_nat x <? cs + cl)
              then at_yx glyph
                     (if adjusted_height =? 1 then 0 else Z.to_nat (Z.of_nat y - rs))
                     (if adjusted_width =? 1 then 0 else Z.to_nat (Z.of_nat x - cs))
              else 0)) /\
     add_sign img_background img_height img_width
     = Ok (cv2_addWeighted img_background (map_px (fun v => (v, v, v)) canvas))) /\
  ((rl <> adjusted_height /\ adjusted_height <> 1) \/
   (cl <> adjusted_width /\ adjusted_width <> 1) ->
   add_sign img_background img_height img_width = Raise ValueError).
Proof.
  intros Hrect Hbg Hh Hw Hah Haw Hr Hc.
  destruct (sign_img_shape Hrect) as (Hsrect & _ & _).
  destruct adjusted_pos_nonempty as [Hne_h Hne_w].
  destruct (cv2_resize_gray_ok sign_img adjusted_width adjusted_height)
    as [glyph Hglyph]; try lia; auto.
  destruct (cv2_resize_gray_shape _ _ _ _ Hsrect Hglyph) as (Hgshape & _ & _).
  destruct (place_sign_region glyph img_height img_width rs rl cs cl
              Hgshape Hah Haw Hh Hw Hr Hc) as [Hfit Hbad].
  destruct (sign_axis img_height adjusted_height Hh Hah) as (Hr1 & Hr2 & Hr3).
  destruct (sign_axis img_width adjusted_width Hw Haw) as (Hc1 & Hc2 & Hc3).
  rewrite Hr in Hr1, Hr2, Hr3. rewrite Hc in Hc1, Hc2, Hc3.
  cbn [snd] in Hr3, Hc3.
  split; [ | split; [ | split]].
  - split; [ | split].
    + intros Hl. specialize (Hr1 Hl). injection Hr1 as -> ->. split; reflexivity.
    + intros Hl Hl'. specialize (Hr2 Hl Hl'). injection Hr2 as -> ->.
      split; reflexivity.
    + exact Hr3.
  - split; [ | split].
    + intros Hl. specialize (Hc1 Hl). injection Hc1 as -> ->. split; reflexivity.
    + intros Hl Hl'. specialize (Hc2 Hl Hl'). injection Hc2 as -> ->.
      split; reflexivity.
    + exact Hc3.
  - intros Hrows Hcols.
    destruct (Hfit Hrows Hcols) as (canvas & Hplace & _ & Hpx).
    exists glyph, canvas. repeat (split; [assumption | ]).
    unfold add_sign. rewrite Hglyph. simpl. rewrite Hplace. reflexivity.
  - intros Hno.
    unfold add_sign. rewrite Hglyph. simpl. rewrite (Hbad Hno). reflexivity.
Qed.

Lemma add_sign_placement_witness :
  ((@adjusted_height Reference.sign_20x20 + 10 <= 9 ->
    5 = 9 - @adjusted_height Reference.sign_20x20 - 10 /\
    3 = @adjusted_height Reference.sign_20x20) /\
   (9 < 10 -> @adjusted_height Reference.sign_20x20 + 10 <= 2 * 9 ->
    5 = 2 * 9 - @adjusted_height Reference.sign_20x20 - 10 /\
    3 = @adjusted_height Reference.sign_20x20) /\
   (9 < @adjusted_height Reference.sign_20x20 + 10 ->
    10 <= 9 \/ 2 * 9 < @adjusted_height Reference.sign_20x20 + 10 ->
    0 <= 3 < @adjusted_height Reference.sign_20x20)) /\
  ((@adjusted_width Reference.sign_20x20 + 10 <= 9 ->
    5 = 9 - @adjusted_width Reference.sign_20x20 - 10 /\
    3 = @adjusted_width Reference.sign_20x20) /\
   (9 < 10 -> @adjusted_width Reference.sign_20x20 + 10 <= 2 * 9 ->
    5 = 2 * 9 - @adjusted_width Reference.sign_20x20 - 10 /\
    3 = @adjusted_width Reference.sign_20x20) /\
   (9 < @adjusted_width Reference.sign_20x20 + 10 ->
    10 <= 9 \/ 2 * 9 < @adjusted_width Reference.sign_20x20 + 10 ->
    0 <= 3 < @adjusted_width Reference.sign_20x20)) /\
  ((3 = @adjusted_height Reference.sign_20x20 \/
    @adjusted_height Reference.sign_20x20 = 1) ->
   (3 = @adjusted_width Reference.sign_20x20 \/
    @adjusted_width Reference.sign_20x20 = 1) ->
   exists glyph canvas : gray,
     @cv2_resize_gray Reference.opencv (@sign_img Reference.sign_20x20)
       (@adjusted_width Reference.sign_20x20)
       (@adjusted_height Reference.sign_20x20) = Ok glyph /\
     @place_sign Reference.sign_20x20 glyph 9 9 = Ok canvas /\
     (forall y x : nat,
        Z.of_nat y < 9 -> Z.of_nat x < 9 ->
        px_at canvas y x =
        Some (if (5 <=? Z.of_nat y) && (Z.of_nat y <? 5 + 3)
                 && (5 <=? Z.of_nat x) && (Z.of_nat x <? 5 + 3)
              then at_yx glyph
                     (if @adjusted_height Reference.sign_20x20 =? 1 then 0
                      else Z.to_nat (Z.of_nat y - 5))
                     (if @adjusted_width Reference.sign_20x20 =? 1 then 0
                      else Z.to_nat (Z.of_nat x - 5))
              else 0)) /\
     @add_sign Reference.opencv Reference.sign_20x20 (Reference.grey 9 9 0) 9 9
     = Ok (cv2_addWeighted (Reference.grey 9 9 0)
             (map_px (fun v => (v, v, v)) canvas))) /\
  ((3 <> @adjusted_height Reference.sign_20x20 /\
    @adjusted_height Reference.sign_20x20 <> 1) \/
   (3 <> @adjusted_width Reference.sign_20x20 /\
    @adjusted_width Reference.sign_20x20 <> 1) ->
   @add_sign Reference.opencv Reference.sign_20x20 (Reference.grey 9 9 0) 9 9
   = Raise ValueError).
Proof.
  apply (@add_sign_placement Reference.opencv Reference.sign_20x20
           (Reference.grey 9 9 0) 9 9 5 3 5 3).
  - eapply has_shape_rectangular, (has_shape_tabulate 20 20); lia.
  - apply has_shape_tabulate; lia.
  - lia.
  - lia.
  - vm_compute. discriminate.
  - vm_compute. discriminate.
  - vm_compute. reflexivity.
  - vm_compute. reflexivity.
Defined.

(** C10, as stated, fails for a sign that scales to 15 by 30 pixels on an
    image of 20 by 20: nothing is misplaced or dropped silently, the call
    raises. *)
Lemma small_image_raises :
  @adjusted_height Reference.sign_100x200 = 15 /\
  @adjusted_width Reference.sign_100x200 = 30 /\
  @process_image Reference.opencv Reference.sign_100x200
    (Reference.grey 20 20 7) None = Raise ValueError.
Proof. vm_compute. repeat split. Qed.

(** ** The composite frame *)

Section Composite.

Context `{OpenCV}.

Lemma adjust_brightness_shape (img : image) (value : float) (h w : Z) :
  has_shape img h w -> has_shape (adjust_brightness img value) h w.
Proof.
  intros Himg. unfold adjust_brightness, cvtColor_HSV2RGB, np_uint8,
    imul_channel2, astype_float32, cvtColor_RGB2HSV.
  repeat apply has_shape_map_px. exact Himg.
Qed.

Lemma brightness_factor_nonempty (amplitudes : list float) :
  amplitudes <> [] -> exists factor, brightness_factor amplitudes = Ok factor.
Proof.
  destruct amplitudes as [|a l]; [congruence | ]. intros _.
  eexists. reflexivity.
Qed.

(** [encode_image] on layers of one shape: the wrapped sum, with the
    trace of the window itself drawn over it on request. *)
Lemma encode_image_merged (amplitudes : list float)
    (img_foreground img_background : image) (should_plot : bool) (h w : Z)
    (factor : float) :
  brightness_factor amplitudes = Ok factor ->
  has_shape img_foreground h w -> has_shape img_background h w ->
  encode_image amplitudes img_foreground img_background should_plot
  = (if should_plot
     then draw_horz_sound
            (zip_px add_px (adjust_brightness img_foreground factor)
               img_background) amplitudes
     else Ok (zip_px add_px (adjust_brightness img_foreground factor)
                img_background)).
Proof.
  intros Hf Hfg Hbg.
  pose proof (adjust_brightness_shape img_foreground factor h w Hfg) as Hadj.
  unfold encode_image. rewrite Hf. simpl.
  rewrite (np_add_same_shape _ _ h w Hadj Hbg). simpl.
  destruct should_plot; [ | reflexivity].
  destruct (draw_horz_sound _ amplitudes); reflexivity.
Qed.

End Composite.

(** C1, as amended. For every non-empty window and every foreground and
    background of one shape, the frame [encode_image] returns is the
    pixelwise sum of the brightness-adjusted foreground and the background
    in [uint8] arithmetic: each channel is the sum modulo 256 (with the
    trace drawn over it when a plot is requested). *)
Theorem encode_image_wrapping_sum `{OpenCV}
    (amplitudes : list float) (img_foreground img_background : image)
    (should_plot : bool) (h w : Z) :
  amplitudes <> [] ->
  has_shape img_foreground h w -> has_shape img_background h w ->
  exists (factor : float) (merged : image),
    brightness_factor amplitudes = Ok factor /\
    merged = zip_px add_px (adjust_brightness img_foreground factor) img_background /\
    has_shape merged h w /\
    (forall y x p q,
       px_at (adjust_brightness img_foreground factor) y x = Some p ->
       px_at img_background y x = Some q ->
       px_at merged y x
       = Some ((p.1.1 + q.1.1) mod 256, (p.1.2 + q.1.2) mod 256,
               (p.2 + q.2) mod 256)) /\
    encode_image amplitudes img_foreground img_background should_plot
    = (if should_plot then draw_horz_sound merged amplitudes else Ok merged).
Proof.
  intros Hne Hfg Hbg.
  destruct (brightness_factor_nonempty amplitudes Hne) as [factor Hf].
  pose proof (adjust_brightness_shape img_foreground factor h w Hfg) as Hadj.
  exists factor, (zip_px add_px (adjust_brightness img_foreground factor) img_background).
  split; [exact Hf | ]. split; [reflexivity | ].
  split; [apply has_shape_zip_px; assumption | ]. split.
  - intros y x [[r1 g1] b1] [[r2 g2] b2] Hp Hq.
    rewrite px_at_zip_px, Hp, Hq. reflexivity.
  - apply (encode_image_merged _ _ _ _ h w); assumption.
Qed.

Lemma encode_image_wrapping_sum_witness :
  exists (factor : float) (merged : image),
    brightness_factor [F64.opp f_0_3] = Ok factor /\
    merged = zip_px add_px
               (@adjust_brightness Reference.opencv (Reference.grey 2 2 200) factor)
               (Reference.grey 2 2 100) /\
    has_shape merged 2 2 /\
    (forall y x p q,
       px_at (@adjust_brightness Reference.opencv (Reference.grey 2 2 200) factor) y x
       = Some p ->
       px_at (Reference.grey 2 2 100) y x = Some q ->
       px_at merged y x
       = Some ((p.1.1 + q.1.1) mod 256, (p.1.2 + q.1.2) mod 256,
               (p.2 + q.2) mod 256)) /\
    @encode_image Reference.opencv [F64.opp f_0_3] (Reference.grey 2 2 200)
      (Reference.grey 2 2 100) false
    = Ok merged.
Proof.
  apply (@encode_image_wrapping_sum Reference.opencv [F64.opp f_0_3]
           (Reference.grey 2 2 200) (Reference.grey 2 2 100) false 2 2).
  - discriminate.
  - apply has_shape_tabulate; lia.
  - apply has_shape_tabulate; lia.
Defined.

(** C1, as stated, fails: a grey foreground pixel of 200 at full brightness
    (window [[-0.3]], factor 1.0) over a background pixel of 100 gives 44 in
    every channel, where the clipped sum is 255. *)
Lemma composite_wraps_around :
  brightness_factor [F64.opp f_0_3] = Ok f_1_0 /\
  @adjust_brightness Reference.opencv [[(200, 200, 200)]] f_1_0
  = [[(200, 200, 200)]] /\
  @encode_image Reference.opencv [F64.opp f_0_3]
    [[(200, 200, 200)]] [[(100, 100, 100)]] false
  = Ok [[(44, 44, 44)]] /\
  zip_px saturating_add_px [[(200, 200, 200)]] [[(100, 100, 100)]]
  = [[(255, 255, 255)]].
Proof. vm_compute. repeat split. Qed.

(** ** The overlay of [draw_horz_sound] *)

Section Overlay.

Context `{OpenCV}.

(** The loop computes one segment per index and draws them in order; it
    stops at the first point that cannot be computed or that [cv2.line]
    refuses. *)
Lemma draw_segments_lines (indices : list nat) (img : image) (pos_x pos_y : Z)
    (sx sy : float) (amplitudes : list float) :
  draw_segments indices img pos_x pos_y sx sy amplitudes
  = (segs ← mapM (trace_segment pos_x pos_y sx sy amplitudes) indices;
     Ok (draw_lines img segs)).
Proof.
  revert img. induction indices as [|i indices IH]; intros img.
  - reflexivity.
  - cbn [draw_segments mapM].
    change (trace_segment pos_x pos_y sx sy amplitudes i)
      with (point1 ← trace_point pos_x pos_y sx sy amplitudes i;
            point2 ← trace_point pos_x pos_y sx sy amplitudes (S i);
            if c_point point1 && c_point point2 then Ok (point1, point2)
            else Raise cv2_error).
    destruct (trace_point pos_x pos_y sx sy amplitudes i) as [p1|e];
      [ | reflexivity].
    destruct (trace_point pos_x pos_y sx sy amplitudes (S i)) as [p2|e];
      [ | reflexivity].
    simpl. unfold cv2_line.
    destruct (c_point p1 && c_point p2); [ | reflexivity].
    simpl. rewrite IH.
    destruct (mapM _ indices) as [segs|e]; reflexivity.
Qed.

Lemma draw_horz_sound_unfold (img : image) (amplitudes : list float) :
  amplitudes <> [] ->
  draw_horz_sound img amplitudes
  = (segs ← mapM (trace_segment 20 (height img - 50)
                    (F64.div (F64.div (F64.of_Z (width img)) (F64.of_Z 4))
                             (F64.of_Z (Z.of_nat (length amplitudes))))
                    (F64.div (F64.div (F64.of_Z (height img)) (F64.of_Z 5))
                             (F64.of_Z 6))
                    amplitudes)
               (seq 0 (length amplitudes - 2));
     Ok (draw_lines img segs)).
Proof.
  intros Hne. unfold draw_horz_sound, py_truediv.
  rewrite of_Z_pos_not_zero by (destruct amplitudes; [congruence | cbn; lia]).
  simpl. apply draw_segments_lines.
Qed.

End Overlay.

(** C6, as amended. When a plot is requested [encode_image] hands the
    window itself, unclamped, to [draw_horz_sound]. For a non-empty window
    the points are plotted left to right, sample [i] at
    [x = round(20 + i * step_x)] and [y = round(height - 50 - a_i * step_y)]
    (a positive amplitude subtracts from [y], which is upward in image
    coordinates). The lines drawn are, in order, the one from sample [i] to
    sample [i + 1] for every [i] with [i + 2] below the window's length, and
    no other: the last sample is joined to nothing, and a window of one or
    two samples leaves the image as it is. The call returns exactly when
    each of these end points can be rounded and fits a C [int]. *)
Theorem draw_horz_sound_segments `{OpenCV}
    (img : image) (amplitudes : list float) :
  amplitudes <> [] ->
  let step_x := F64.div (F64.div (F64.of_Z (width img)) (F64.of_Z 4))
                  (F64.of_Z (Z.of_nat (length amplitudes))) in
  let step_y := F64.div (F64.div (F64.of_Z (height img)) (F64.of_Z 5))
                  (F64.of_Z 6) in
  let point := trace_point 20 (height img - 50) step_x step_y amplitudes in
  (forall fg bg h w factor,
     brightness_factor amplitudes = Ok factor ->
     has_shape fg h w -> has_shape bg h w ->
     encode_image amplitudes fg bg true
     = draw_horz_sound (zip_px add_px (adjust_brightness fg factor) bg) amplitudes) /\
  (forall (i : nat) (x y : Z), point i = Ok (x, y) ->
     exists a, amplitudes !! i = Some a /\
       F64.round (F64.add (F64.of_Z 20)
                    (F64.mul (F64.of_Z (Z.of_nat i)) step_x)) = Ok x /\
       F64.round (F64.sub (F64.of_Z (height img - 50))
                    (F64.mul a step_y)) = Ok y) /\
  (forall out, draw_horz_sound img amplitudes = Ok out ->
     exists segs,
       out = draw_lines img segs /\
       length segs = (length amplitudes - 2)%nat /\
       (forall i : nat, (i + 2 < length amplitudes)%nat ->
          exists p1 p2, point i = Ok p1 /\ point (S i) = Ok p2 /\
                        segs !! i = Some (p1, p2)) /\
       (forall (k : nat) seg, segs !! k = Some seg ->
          (k + 2 < length amplitudes)%nat)) /\
  ((length amplitudes <= 2)%nat -> draw_horz_sound img amplitudes = Ok img) /\
  (is_Ok (draw_horz_sound img amplitudes) <->
   forall i : nat, (i + 2 < length amplitudes)%nat ->
     exists p1 p2, point i = Ok p1 /\ point (S i) = Ok p2 /\
                   c_point p1 = true /\ c_point p2 = true).
Proof.
  intros Hne step_x step_y point.
  pose proof (draw_horz_sound_unfold img amplitudes Hne) as Hdraw.
  fold step_x step_y in Hdraw.
  assert (Hseg : forall i, trace_segment 20 (height img - 50) step_x step_y
                             amplitudes i
                           = (p1 ← point i; p2 ← point (S i);
                              if c_point p1 && c_point p2 then Ok (p1, p2)
                              else Raise cv2_error))
    by reflexivity.
  assert (Hseg_Ok : forall i s,
            trace_segment 20 (height img - 50) step_x step_y amplitudes i = Ok s ->
            point i = Ok s.1 /\ point (S i) = Ok s.2 /\
            c_point s.1 = true /\ c_point s.2 = true).
  { intros i s Hs. rewrite Hseg in Hs.
    apply bind_Ok in Hs as (p1 & Hp1 & Hs).
    apply bind_Ok in Hs as (p2 & Hp2 & Hs).
    destruct (c_point p1 && c_point p2) eqn:Hc; [ | discriminate].
    injection Hs as <-. apply andb_prop in Hc as [Hc1 Hc2]. auto. }
  split; [ | split; [ | split; [ | split]]].
  - intros fg bg h w factor Hf Hfg Hbg.
    apply (encode_image_merged _ _ _ true h w); assumption.
  - intros i x y Hp. unfold point, trace_point in Hp.
    apply bind_Ok in Hp as (x' & Hx & Hp).
    apply bind_Ok in Hp as (a & Ha & Hp).
    apply bind_Ok in Hp as (y' & Hy & Hp).
    injection Hp as <- <-.
    exists a. split; [ | split; assumption].
    unfold py_getitem in Ha. destruct (amplitudes !! i); congruence.
  - intros out Hout. rewrite Hdraw in Hout.
    apply bind_Ok in Hout as (segs & Hsegs & Hout). injection Hout as <-.
    apply mapM_Ok_lookup in Hsegs as [Hlen Hall].
    rewrite length_seq in Hlen.
    exists segs. split; [reflexivity | ]. split; [exact Hlen | ]. split.
    + intros i Hi.
      destruct (Hall i i) as (s & Hs & Hsi).
      { apply lookup_seq. lia. }
      destruct (Hseg_Ok i s Hs) as (Hp1 & Hp2 & _).
      exists s.1, s.2. rewrite <- surjective_pairing. auto.
    + intros k seg Hk.
      pose proof (lookup_lt_Some _ _ _ Hk) as Hklt. lia.
  - intros Hshort. rewrite Hdraw.
    replace (length amplitudes - 2)%nat with 0%nat by lia. reflexivity.
  - rewrite Hdraw. split.
    + intros [out Hout] i Hi.
      apply bind_Ok in Hout as (segs & Hsegs & _).
      apply mapM_Ok_lookup in Hsegs as [_ Hall].
      destruct (Hall i i) as (s & Hs & _).
      { apply lookup_seq. lia. }
      destruct (Hseg_Ok i s Hs) as (Hp1 & Hp2 & Hc1 & Hc2).
      exists s.1, s.2. auto.
    + intros Hall.
      destruct (mapM_is_Ok (trace_segment 20 (height img - 50) step_x step_y
                              amplitudes) (seq 0 (length amplitudes - 2)))
        as [segs Hsegs].
      * apply Forall_forall. intros i Hi.
        apply elem_of_seq in Hi.
        destruct (Hall i) as (p1 & p2 & Hp1 & Hp2 & Hc1 & Hc2); [lia | ].
        exists (p1, p2). rewrite Hseg, Hp1. simpl. rewrite Hp2. simpl.
        rewrite Hc1, Hc2. reflexivity.
      * rewrite Hsegs. eexists. reflexivity.
Qed.

Lemma draw_horz_sound_segments_witness :
  let step_x := F64.div (F64.div (F64.of_Z (width (Reference.grey 60 40 0))) (F64.of_Z 4))
                  (F64.of_Z (Z.of_nat (length [f_0_3; F64.opp f_0_3; f_0_0; f_0_3]))) in
  let step_y := F64.div (F64.div (F64.of_Z (height (Reference.grey 60 40 0))) (F64.of_Z 5))
                  (F64.of_Z 6) in
  let point := trace_point 20 (height (Reference.grey 60 40 0) - 50) step_x step_y
                 [f_0_3; F64.opp f_0_3; f_0_0; f_0_3] in
  (forall fg bg h w factor,
     brightness_factor [f_0_3; F64.opp f_0_3; f_0_0; f_0_3] = Ok factor ->
     has_shape fg h w -> has_shape bg h w ->
     @encode_image Reference.opencv [f_0_3; F64.opp f_0_3; f_0_0; f_0_3] fg bg true
     = @draw_horz_sound Reference.opencv (zip_px add_px (@adjust_brightness Reference.opencv fg factor) bg) [f_0_3; F64.opp f_0_3; f_0_0; f_0_3]) /\
  (forall (i : nat) (x y : Z), point i = Ok (x, y) ->
     exists a, [f_0_3; F64.opp f_0_3; f_0_0; f_0_3] !! i = Some a /\
       F64.round (F64.add (F64.of_Z 20)
                    (F64.mul (F64.of_Z (Z.of_nat i)) step_x)) = Ok x /\
       F64.round (F64.sub (F64.of_Z (height (Reference.grey 60 40 0) - 50))
                    (F64.mul a step_y)) = Ok y) /\
  (forall out, @draw_horz_sound Reference.opencv (Reference.grey 60 40 0) [f_0_3; F64.opp f_0_3; f_0_0; f_0_3] = Ok out ->
     exists segs,
       out = @draw_lines Reference.opencv (Reference.grey 60 40 0) segs /\
       length segs = (length [f_0_3; F64.opp f_0_3; f_0_0; f_0_3] - 2)%nat /\
       (forall i : nat, (i + 2 < length [f_0_3; F64.opp f_0_3; f_0_0; f_0_3])%nat ->
          exists p1 p2, point i = Ok p1 /\ point (S i) = Ok p2 /\
                        segs !! i = Some (p1, p2)) /\
       (forall (k : nat) seg, segs !! k = Some seg ->
          (k + 2 < length [f_0_3; F64.opp f_0_3; f_0_0; f_0_3])%nat)) /\
  ((length [f_0_3; F64.opp f_0_3; f_0_0; f_0_3] <= 2)%nat -> @draw_horz_sound Reference.opencv (Reference.grey 60 40 0) [f_0_3; F64.opp f_0_3; f_0_0; f_0_3] = Ok (Reference.grey 60 40 0)) /\
  (is_Ok (@draw_horz_sound Reference.opencv (Reference.grey 60 40 0) [f_0_3; F64.opp f_0_3; f_0_0; f_0_3]) <->
   forall i : nat, (i + 2 < length [f_0_3; F64.opp f_0_3; f_0_0; f_0_3])%nat ->
     exists p1 p2, point i = Ok p1 /\ point (S i) = Ok p2 /\
                   c_point p1 = true /\ c_point p2 = true).
Proof.
  apply (@draw_horz_sound_segments Reference.opencv (Reference.grey 60 40 0)
           [f_0_3; F64.opp f_0_3; f_0_0; f_0_3]).
  discriminate.
Defined.

(** C6, as stated, fails on the empty window: the step is a division by the
    number of samples, so [draw_horz_sound] raises [ZeroDivisionError], and
    [encode_image] raises before it, [ValueError] from [max]. A window of
    two samples is drawn as nothing at all. *)
Lemma overlay_empty_window_raises :
  @draw_horz_sound Reference.opencv (Reference.grey 60 40 0) []
  = Raise ZeroDivisionError /\
  @encode_image Reference.opencv [] (Reference.grey 60 40 0)
    (Reference.grey 60 40 0) true = Raise ValueError /\
  @draw_horz_sound Reference.opencv (Reference.grey 60 40 0)
    [f_0_3; F64.opp f_0_3] = Ok (Reference.grey 60 40 0).
Proof. vm_compute. repeat split. Qed.

(** ** The encoder over the store *)

Section HeapEncoder.

Context `{OpenCV}.

Lemma unchanged_refl (s : gmap Heap.loc Heap.array) : unchanged s s.
Proof. intros l _. reflexivity. Qed.

Lemma unchanged_trans (s1 s2 s3 : gmap Heap.loc Heap.array) :
  unchanged s1 s2 -> unchanged s2 s3 -> unchanged s1 s3.
Proof.
  intros H12 H23 l Hl. rewrite <- (H12 l Hl). apply H23.
  apply elem_of_dom. rewrite (H12 l Hl). apply elem_of_dom. exact Hl.
Qed.

Lemma unchanged_alloc (s : gmap Heap.loc Heap.array) (v : Heap.array) :
  unchanged s (<[fresh (dom s) := v]> s).
Proof.
  intros l Hl. apply lookup_insert_ne.
  intros Heq. subst l. exact (is_fresh (dom s) Hl).
Qed.

Lemma unchanged_write (s : gmap Heap.loc Heap.array) (l : Heap.loc) (v : Heap.array) :
  l ∉ dom s -> unchanged s (<[l := v]> s).
Proof.
  intros Hl l' Hl'. apply lookup_insert_ne. intros Heq. subst l'.
  exact (Hl Hl').
Qed.

Lemma alloc_run (s : gmap Heap.loc Heap.array) (v : Heap.array) :
  exists l, Heap.alloc v s = (Ok l, <[l := v]> s) /\ l ∉ dom s.
Proof. exists (fresh (dom s)). split; [reflexivity | apply is_fresh]. Qed.

(** [adjust_brightness] returns a new array holding the adjusted image
    and changes no array that existed before the call. *)
Lemma adjust_brightness_run (s : gmap Heap.loc Heap.array) (img : Heap.loc) (a : image)
    (value : float) :
  s !! img = Some (Heap.U8 a) ->
  exists l s',
    Heap.adjust_brightness img value s = (Ok l, s') /\
    s' !! l = Some (Heap.U8 (adjust_brightness a value)) /\
    (l ∉ dom s) /\ unchanged s s'.
Proof.
  intros Himg.
  unfold Heap.adjust_brightness, Heap.bind, Heap.read_u8, Heap.read_f32,
    Heap.write, Heap.alloc.
  rewrite Himg.
  set (l1 := fresh (dom s)).
  set (s1 := <[l1 := Heap.U8 (cvtColor_RGB2HSV a)]> s).
  assert (H1 : s1 !! l1 = Some (Heap.U8 (cvtColor_RGB2HSV a)))
    by apply lookup_insert_eq.
  rewrite H1.
  set (l2 := fresh (dom s1)).
  set (s2 := <[l2 := Heap.F32A (astype_float32 (cvtColor_RGB2HSV a))]> s1).
  assert (H2 : s2 !! l2 = Some (Heap.F32A (astype_float32 (cvtColor_RGB2HSV a))))
    by apply lookup_insert_eq.
  rewrite H2.
  set (s3 := <[l2 := Heap.F32A (imul_channel2 (astype_float32 (cvtColor_RGB2HSV a))
                             value)]> s2).
  assert (H3 : s3 !! l2 = Some (Heap.F32A (imul_channel2
                                        (astype_float32 (cvtColor_RGB2HSV a))
                                        value)))
    by apply lookup_insert_eq.
  rewrite H3.
  set (l4 := fresh (dom s3)).
  set (s4 := <[l4 := Heap.U8 (np_uint8 (imul_channel2
                                    (astype_float32 (cvtColor_RGB2HSV a))
                                    value))]> s3).
  assert (H4 : s4 !! l4 = Some (Heap.U8 (np_uint8 (imul_channel2
                                    (astype_float32 (cvtColor_RGB2HSV a))
                                    value))))
    by apply lookup_insert_eq.
  rewrite H4.
  set (l5 := fresh (dom s4)).
  eexists l5, _. split; [reflexivity | ].
  assert (Hl1 : l1 ∉ dom s) by apply is_fresh.
  assert (Hl2 : l2 ∉ dom s1) by apply is_fresh.
  assert (Hl4 : l4 ∉ dom s3) by apply is_fresh.
  assert (Hl5 : l5 ∉ dom s4) by apply is_fresh.
  assert (Hd1 : dom s1 = {[l1]} ∪ dom s) by apply dom_insert_L.
  assert (Hd2 : dom s2 = {[l2]} ∪ dom s1) by apply dom_insert_L.
  assert (Hd3 : dom s3 = {[l2]} ∪ dom s2) by apply dom_insert_L.
  assert (Hd4 : dom s4 = {[l4]} ∪ dom s3) by apply dom_insert_L.
  assert (Hsub : forall l, l ∈ dom s ->
            l ∈ dom s1 /\ l ∈ dom s2 /\ l ∈ dom s3 /\ l ∈ dom s4).
  { intros l Hl. rewrite Hd4, Hd3, Hd2, Hd1.
    repeat split; repeat (apply elem_of_union; right); exact Hl. }
  split; [apply lookup_insert_eq | ]. split.
  - intros Hl. apply Hl5, (Hsub l5 Hl).
  - intros l Hl. destruct (Hsub l Hl) as (Hs1 & Hs2 & Hs3 & Hs4).
    rewrite lookup_insert_ne by (intros Heq; subst l; exact (Hl5 Hs4)).
    unfold s4. rewrite lookup_insert_ne by (intros Heq; subst l; exact (Hl4 Hs3)).
    unfold s3. rewrite lookup_insert_ne by (intros Heq; subst l; exact (Hl2 Hs1)).
    unfold s2. rewrite lookup_insert_ne by (intros Heq; subst l; exact (Hl2 Hs1)).
    unfold s1. rewrite lookup_insert_ne by (intros Heq; subst l; exact (Hl1 Hl)).
    reflexivity.
Qed.

(** The drawing loop writes to the array it is given and to no other,
    and computes what the loop on the array's contents computes. *)
Lemma draw_segments_run (indices : list nat) (s : gmap Heap.loc Heap.array)
    (img : Heap.loc) (a : image) (pos_x pos_y : Z) (sx sy : float)
    (amplitudes : list float) :
  s !! img = Some (Heap.U8 a) ->
  exists r s',
    Heap.draw_segments indices img pos_x pos_y sx sy amplitudes s = (r, s') /\
    (forall l, l <> img -> s' !! l = s !! l) /\
    match draw_segments indices a pos_x pos_y sx sy amplitudes with
    | Ok a' => r = Ok tt /\ s' !! img = Some (Heap.U8 a')
    | Raise e => r = Raise e /\ exists a', s' !! img = Some (Heap.U8 a')
    end.
Proof.
  revert s a. induction indices as [|i indices IH]; intros s a Himg.
  - exists (Ok tt), s. cbn. repeat split; auto.
  - cbn [Heap.draw_segments draw_segments].
    unfold Heap.bind at 1. unfold Heap.lift at 1.
    destruct (trace_point pos_x pos_y sx sy amplitudes i) as [p1|e].
    2: { exists (Raise e), s. simpl. repeat split; eauto. }
    unfold Heap.bind at 1. unfold Heap.lift at 1.
    destruct (trace_point pos_x pos_y sx sy amplitudes (S i)) as [p2|e].
    2: { exists (Raise e), s. simpl. repeat split; eauto. }
    unfold Heap.bind at 1. unfold Heap.read_u8 at 1. rewrite Himg.
    unfold Heap.bind at 1. unfold Heap.lift at 1.
    destruct (cv2_line a p1 p2 color line_thickness) as [a1|e] eqn:Hline.
    2: { exists (Raise e), s. simpl. rewrite Hline. simpl. repeat split; eauto. }
    unfold Heap.bind at 1. unfold Heap.write at 1.
    simpl. rewrite Hline. simpl.
    destruct (IH (<[img := Heap.U8 a1]> s) a1)
      as (r & s' & Hrun & Hother & Hres).
    { apply lookup_insert_eq. }
    exists r, s'. split; [exact Hrun | split].
    + intros l Hl. rewrite (Hother l Hl). apply lookup_insert_ne. congruence.
    + exact Hres.
Qed.

Lemma draw_horz_sound_run (s : gmap Heap.loc Heap.array) (img : Heap.loc)
    (a : image) (amplitudes : list float) :
  s !! img = Some (Heap.U8 a) ->
  exists r s',
    Heap.draw_horz_sound img amplitudes s = (r, s') /\
    (forall l, l <> img -> s' !! l = s !! l) /\
    match draw_horz_sound a amplitudes with
    | Ok a' => r = Ok tt /\ s' !! img = Some (Heap.U8 a')
    | Raise e => r = Raise e /\ exists a', s' !! img = Some (Heap.U8 a')
    end.
Proof.
  intros Himg. unfold Heap.draw_horz_sound, draw_horz_sound.
  unfold Heap.bind at 1. unfold Heap.read_u8 at 1. rewrite Himg.
  unfold Heap.bind at 1. unfold Heap.lift at 1.
  destruct (py_truediv _ _) as [step|e].
  - simpl. apply draw_segments_run. exact Himg.
  - exists (Raise e), s. simpl. repeat split; eauto.
Qed.

(** [encode_image] over the store: every array that existed before the
    call is unchanged after it, whatever the outcome, and a returned frame
    is a new array holding what [encode_image] computes from the contents
    of the two layers. *)
Lemma encode_image_run (s : gmap Heap.loc Heap.array)
    (amplitudes : list float) (img_foreground img_background : Heap.loc)
    (fg bg : image) (should_plot : bool) :
  s !! img_foreground = Some (Heap.U8 fg) ->
  s !! img_background = Some (Heap.U8 bg) ->
  exists r s',
    Heap.encode_image amplitudes img_foreground img_background should_plot s
    = (r, s') /\
    unchanged s s' /\
    match encode_image amplitudes fg bg should_plot with
    | Ok v => exists l, r = Ok l /\ (l ∉ dom s) /\ s' !! l = Some (Heap.U8 v)
    | Raise e => r = Raise e
    end.
Proof.
  intros Hfg Hbg. unfold Heap.encode_image, encode_image.
  unfold Heap.bind at 1. unfold Heap.lift at 1.
  destruct (brightness_factor amplitudes) as [factor|e].
  2: { exists (Raise e), s. simpl. split; [reflexivity | split; [apply unchanged_refl | reflexivity]]. }
  destruct (adjust_brightness_run s img_foreground fg factor Hfg)
    as (l1 & s1 & Hrun1 & Hl1 & Hfresh1 & Hun1).
  unfold Heap.bind at 1. rewrite Hrun1.
  unfold Heap.bind at 1. unfold Heap.read_u8 at 1. rewrite Hl1.
  unfold Heap.bind at 1. unfold Heap.read_u8 at 1.
  assert (Hbg1 : s1 !! img_background = Some (Heap.U8 bg)).
  { rewrite (Hun1 img_background); [exact Hbg | ].
    apply elem_of_dom. rewrite Hbg. eauto. }
  rewrite Hbg1.
  unfold Heap.bind at 1. unfold Heap.lift at 1. simpl.
  destruct (np_add (adjust_brightness fg factor) bg) as [sum|e].
  2: { exists (Raise e), s1. simpl. split; [reflexivity | split; [exact Hun1 | reflexivity]]. }
  simpl.
  unfold Heap.bind at 1. unfold Heap.alloc at 1.
  set (l2 := fresh (dom s1)).
  set (s2 := <[l2 := Heap.U8 sum]> s1).
  assert (Hl2 : l2 ∉ dom s1) by apply is_fresh.
  assert (Hun2 : unchanged s s2).
  { apply (unchanged_trans s s1 s2 Hun1). apply unchanged_alloc. }
  assert (Hl2s : l2 ∉ dom s).
  { intros Hin. apply Hl2. apply elem_of_dom.
    rewrite (Hun1 l2 Hin). apply elem_of_dom. exact Hin. }
  destruct should_plot.
  - destruct (draw_horz_sound_run s2 l2 sum amplitudes)
      as (r & s3 & Hrun3 & Hother & Hres); [apply lookup_insert_eq | ].
    unfold Heap.bind at 1. rewrite Hrun3.
    assert (Hun3 : unchanged s s3).
    { intros l Hl. rewrite Hother; [apply Hun2; exact Hl | ].
      intros ->. exact (Hl2s Hl). }
    destruct (draw_horz_sound sum amplitudes) as [out|e].
    + destruct Hres as [-> Hout]. simpl.
      eexists (Ok l2), s3. split; [reflexivity | split; [exact Hun3 | ]].
      exists l2. auto.
    + destruct Hres as [-> _]. simpl.
      exists (Raise e), s3. split; [reflexivity | split; [exact Hun3 | reflexivity]].
  - unfold Heap.bind at 1. unfold Heap.ret. simpl.
    eexists (Ok l2), s2. split; [reflexivity | split; [exact Hun2 | ]].
    exists l2. split; [reflexivity | split; [exact Hl2s | apply lookup_insert_eq]].
Qed.

End HeapEncoder.

(** C9. Every call of [encode_image] leaves the two stored layers, and
    every other array that existed before the call, as they were, whatever
    the outcome: the brightness is changed on arrays made during the call.
    A returned frame is an array that did not exist before, so it is neither
    layer, and it holds the frame computed from the layers' contents. *)
Theorem encode_image_leaves_layers `{OpenCV}
    (s : gmap Heap.loc Heap.array) (amplitudes : list float)
    (img_foreground img_background : Heap.loc) (fg bg : image)
    (should_plot : bool) :
  s !! img_foreground = Some (Heap.U8 fg) ->
  s !! img_background = Some (Heap.U8 bg) ->
  exists r s',
    Heap.encode_image amplitudes img_foreground img_background should_plot s
    = (r, s') /\
    s' !! img_foreground = Some (Heap.U8 fg) /\
    s' !! img_background = Some (Heap.U8 bg) /\
    unchanged s s' /\
    (forall l, r = Ok l ->
       l <> img_foreground /\ l <> img_background /\ s !! l = None /\
       exists v, encode_image amplitudes fg bg should_plot = Ok v /\
                 s' !! l = Some (Heap.U8 v)) /\
    (forall v, encode_image amplitudes fg bg should_plot = Ok v ->
       exists l, r = Ok l).
Proof.
  intros Hfg Hbg.
  destruct (encode_image_run s amplitudes img_foreground img_background fg bg
              should_plot Hfg Hbg) as (r & s' & Hrun & Hun & Hres).
  assert (Hfgd : img_foreground ∈ dom s) by (apply elem_of_dom; rewrite Hfg; eauto).
  assert (Hbgd : img_background ∈ dom s) by (apply elem_of_dom; rewrite Hbg; eauto).
  exists r, s'. split; [exact Hrun | ].
  split; [rewrite (Hun _ Hfgd); exact Hfg | ].
  split; [rewrite (Hun _ Hbgd); exact Hbg | ].
  split; [exact Hun | ]. split.
  - intros l Hr. subst r.
    destruct (encode_image amplitudes fg bg should_plot) as [v|e].
    + destruct Hres as (l' & [= <-] & Hfresh & Hl).
      repeat split.
      * intros ->. exact (Hfresh Hfgd).
      * intros ->. exact (Hfresh Hbgd).
      * apply not_elem_of_dom. exact Hfresh.
      * exists v. split; [reflexivity | exact Hl].
    + discriminate.
  - intros v Hv. rewrite Hv in Hres.
    destruct Hres as (l & -> & _). exists l. reflexivity.
Qed.

Lemma encode_image_leaves_layers_witness :
  exists r s',
    @Heap.encode_image Reference.opencv [f_0_3; F64.opp f_0_3; f_0_0] 1%positive
      2%positive true
      Reference.two_layers
    = (r, s') /\
    s' !! 1%positive = Some (Heap.U8 (Reference.grey 60 40 200)) /\
    s' !! 2%positive = Some (Heap.U8 (Reference.grey 60 40 100)) /\
    unchanged Reference.two_layers s' /\
    (forall l, r = Ok l ->
       l <> 1%positive /\ l <> 2%positive /\
       Reference.two_layers !! l = None /\
       exists v, @encode_image Reference.opencv [f_0_3; F64.opp f_0_3; f_0_0]
                   (Reference.grey 60 40 200) (Reference.grey 60 40 100) true = Ok v /\
                 s' !! l = Some (Heap.U8 v)) /\
    (forall v, @encode_image Reference.opencv [f_0_3; F64.opp f_0_3; f_0_0]
                 (Reference.grey 60 40 200) (Reference.grey 60 40 100) true = Ok v ->
       exists l, r = Ok l).
Proof.
  apply (@encode_image_leaves_layers Reference.opencv Reference.two_layers).
  - apply lookup_insert_eq.
  - unfold Reference.two_layers.
    rewrite lookup_insert_ne by discriminate. apply lookup_insert_eq.
Defined.

(** ** The checks of [load_image] *)

Section LoadImageChecks.

Context `{PIL} `{Examples}.

Lemma np_asarray_shape (p : pil_image) :
  nd_shape (np_asarray p)
  = if bands (pil_mode_of p) =? 1 then [(pil_size p).2; (pil_size p).1]
    else [(pil_size p).2; (pil_size p).1; bands (pil_mode_of p)].
Proof. unfold np_asarray. destruct (pil_size p) as [w h]. reflexivity. Qed.

Lemma channels_of_array (p : pil_image) :
  py_getitem (nd_shape (np_asarray p)) 2
  = if bands (pil_mode_of p) =? 1 then Raise IndexError
    else Ok (bands (pil_mode_of p)).
Proof.
  rewrite np_asarray_shape.
  destruct (bands (pil_mode_of p) =? 1); reflexivity.
Qed.

Lemma check_images_Ok (img img_mask : option pil_image)
    (a : ndarray) (m : option ndarray) :
  check_images img img_mask = Ok (a, m) ->
  exists i, img = Some i /\ a = np_asarray i /\
            bands (pil_mode_of i) = 3 /\
            m = np_asarray <$> img_mask /\
            forall k, img_mask = Some k -> bands (pil_mode_of k) = 3.
Proof.
  unfold check_images. destruct img as [i|]; [ | discriminate].
  rewrite channels_of_array.
  destruct (bands (pil_mode_of i) =? 1) eqn:H1; [discriminate | ].
  simpl.
  destruct (bands (pil_mode_of i) =? 3) eqn:H3; [ | discriminate].
  apply Z.eqb_eq in H3.
  destruct img_mask as [k|].
  - rewrite channels_of_array.
    destruct (bands (pil_mode_of k) =? 1) eqn:K1; [discriminate | ].
    simpl.
    destruct (bands (pil_mode_of k) =? 3) eqn:K3; [ | discriminate].
    apply Z.eqb_eq in K3.
    intros [= <- <-]. exists i. repeat split; auto.
    intros k' [= <-]. exact K3.
  - intros [= <- <-]. exists i. repeat split; auto. discriminate.
Qed.

Lemma check_images_three (i : pil_image) (img_mask : option pil_image) :
  bands (pil_mode_of i) = 3 ->
  (forall k, img_mask = Some k -> bands (pil_mode_of k) = 3) ->
  check_images (Some i) img_mask = Ok (np_asarray i, np_asarray <$> img_mask).
Proof.
  intros Hi Hm. unfold check_images.
  destruct img_mask as [k|]; rewrite !channels_of_array.
  - specialize (Hm k eq_refl).
    destruct (bands (pil_mode_of i) =? 1) eqn:H1; [lia | ]. simpl.
    destruct (bands (pil_mode_of i) =? 3) eqn:H3; [ | lia].
    destruct (bands (pil_mode_of k) =? 1) eqn:K1; [lia | ]. simpl.
    destruct (bands (pil_mode_of k) =? 3) eqn:K3; [reflexivity | lia].
  - destruct (bands (pil_mode_of i) =? 1) eqn:H1; [lia | ]. simpl.
    destruct (bands (pil_mode_of i) =? 3) eqn:H3; [reflexivity | lia].
Qed.

Lemma check_images_channels (i : pil_image) (img_mask : option pil_image) :
  bands (pil_mode_of i) <> 1 -> bands (pil_mode_of i) <> 3 ->
  check_images (Some i) img_mask = Raise StopException.
Proof.
  intros H1 H3. unfold check_images. rewrite channels_of_array.
  destruct (bands (pil_mode_of i) =? 1) eqn:E1; [lia | ]. simpl.
  destruct (bands (pil_mode_of i) =? 3) eqn:E3; [lia | reflexivity].
Qed.

Lemma check_images_mask_channels (i k : pil_image) :
  bands (pil_mode_of i) = 3 ->
  bands (pil_mode_of k) <> 1 -> bands (pil_mode_of k) <> 3 ->
  check_images (Some i) (Some k) = Raise StopException.
Proof.
  intros Hi K1 K3. unfold check_images. rewrite !channels_of_array.
  destruct (bands (pil_mode_of i) =? 1) eqn:E1; [lia | ]. simpl.
  destruct (bands (pil_mode_of i) =? 3) eqn:E3; [ | lia].
  destruct (bands (pil_mode_of k) =? 1) eqn:F1; [lia | ]. simpl.
  destruct (bands (pil_mode_of k) =? 3) eqn:F3; [lia | reflexivity].
Qed.

Lemma choose_images_upload (ui : sidebar) (i : pil_image) :
  button_use_example ui = false ->
  uploaded_img_file ui = Some i ->
  (forall m, uploaded_img_mask ui = Some m -> pil_size i = pil_size m) ->
  choose_images ui
  = Ok (Some (convert_RGB i), convert_RGB <$> uploaded_img_mask ui).
Proof.
  intros Hb Hi Hsize. unfold choose_images. rewrite Hb, Hi.
  destruct (uploaded_img_mask ui) as [m|]; [ | reflexivity].
  change (convert_RGB <$> Some i) with (Some (convert_RGB i)).
  change (convert_RGB <$> Some m) with (Some (convert_RGB m)).
  cbv iota beta.
  destruct (decide (pil_size (convert_RGB i) = pil_size (convert_RGB m)))
    as [_ | Hne]; [reflexivity | ].
  exfalso. apply Hne. simpl. apply Hsize. reflexivity.
Qed.

End LoadImageChecks.

(** C7, as amended. An upload is converted to RGB when it is read, so an
    uploaded image or mask of any channel count passes the channel checks;
    an uploaded image and mask of different sizes stop the run with a
    warning. An image that reaches the checks unconverted (a bundled
    example) as an array of several channels, not three, stops the run, and
    so does such a mask. Whatever [load_image] returns has three channels,
    and when it stops or raises, no layers are produced. *)
Theorem load_image_checks `{OpenCV} `{Assets} `{PIL} `{Examples} (ui : sidebar) :
  (button_use_example ui = false ->
   forall i m, uploaded_img_file ui = Some i -> uploaded_img_mask ui = Some m ->
     pil_size i <> pil_size m ->
     load_image ui = Raise StopException) /\
  (button_use_example ui = false ->
   forall i, uploaded_img_file ui = Some i ->
     (forall m, uploaded_img_mask ui = Some m -> pil_size i = pil_size m) ->
     load_image ui
     = Ok (np_asarray (convert_RGB i),
           (fun m => np_asarray (convert_RGB m)) <$> uploaded_img_mask ui)) /\
  (forall i img_mask, choose_images ui = Ok (Some i, img_mask) ->
     bands (pil_mode_of i) <> 1 -> bands (pil_mode_of i) <> 3 ->
     load_image ui = Raise StopException) /\
  (forall i k, choose_images ui = Ok (Some i, Some k) ->
     bands (pil_mode_of i) = 3 ->
     bands (pil_mode_of k) <> 1 -> bands (pil_mode_of k) <> 3 ->
     load_image ui = Raise StopException) /\
  (forall img img_mask, load_image ui = Ok (img, img_mask) ->
     (exists h w, nd_shape img = [h; w; 3]) /\
     (forall m, img_mask = Some m -> exists h w, nd_shape m = [h; w; 3])) /\
  (forall e, load_image ui = Raise e -> prepare ui = Raise e).
Proof.
  split; [ | split; [ | split; [ | split; [ | split]]]].
  - intros Hb i m Hi Hm Hsize. unfold load_image, choose_images.
    rewrite Hb, Hi, Hm. simpl.
    destruct (decide (pil_size i = pil_size m)); [contradiction | reflexivity].
  - intros Hb i Hi Hsize. unfold load_image.
    rewrite (choose_images_upload ui i Hb Hi Hsize).
    change (check_images (Some (convert_RGB i))
              (convert_RGB <$> uploaded_img_mask ui)
            = Ok (np_asarray (convert_RGB i),
                  (fun m => np_asarray (convert_RGB m)) <$> uploaded_img_mask ui)).
    rewrite check_images_three.
    + destruct (uploaded_img_mask ui); reflexivity.
    + reflexivity.
    + intros k Hk. destruct (uploaded_img_mask ui); [ | discriminate].
      injection Hk as <-. reflexivity.
  - intros i img_mask Hc Hn1 Hn3. unfold load_image. rewrite Hc.
    apply check_images_channels; assumption.
  - intros i k Hc Hi Kn1 Kn3. unfold load_image. rewrite Hc.
    apply check_images_mask_channels; assumption.
  - intros img img_mask Hl. unfold load_image in Hl.
    apply bind_Ok in Hl as ([i m] & _ & Hl).
    apply check_images_Ok in Hl as (p & -> & -> & Hp & -> & Hm).
    split.
    + rewrite np_asarray_shape.
      destruct (bands (pil_mode_of p) =? 1) eqn:E1; [lia | ].
      eexists _, _. f_equal. f_equal. f_equal. exact Hp.
    + intros a Ha. destruct m as [k|]; [ | discriminate].
      injection Ha as <-. specialize (Hm k eq_refl).
      rewrite np_asarray_shape.
      destruct (bands (pil_mode_of k) =? 1) eqn:E1; [lia | ].
      eexists _, _. f_equal. f_equal. f_equal. exact Hm.
  - intros e He. unfold prepare. rewrite He. reflexivity.
Qed.

Lemma load_image_checks_witness :
  @load_image Reference.pil Reference.no_examples
    (Reference.uploads (Some (Reference.flat_image Mode_LA 14 14 90))
                       (Some (Reference.flat_image Mode_RGBA 14 14 255)))
  = Ok (np_asarray (@convert_RGB Reference.pil (Reference.flat_image Mode_LA 14 14 90)),
        Some (np_asarray (@convert_RGB Reference.pil
                            (Reference.flat_image Mode_RGBA 14 14 255)))).
Proof.
  apply (proj1 (proj2 (@load_image_checks Reference.opencv Reference.sign_20x20
                         Reference.pil Reference.no_examples
                         (Reference.uploads
                            (Some (Reference.flat_image Mode_LA 14 14 90))
                            (Some (Reference.flat_image Mode_RGBA 14 14 255)))))
           eq_refl (Reference.flat_image Mode_LA 14 14 90) eq_refl).
  intros m Hm. injection Hm as <-. reflexivity.
Defined.

(** C7, as stated, fails on an uploaded image of four channels, which is
    converted and processed, and on a bundled example whose mask is larger
    than its image, whose sizes are not compared. *)
Lemma upload_of_four_channels_accepted :
  bands (pil_mode_of (Reference.flat_image Mode_RGBA 14 14 90)) = 4 /\
  (exists layers,
     @prepare Reference.opencv Reference.sign_20x20 Reference.pil Reference.no_examples
       (Reference.uploads (Some (Reference.flat_image Mode_RGBA 14 14 90)) None)
     = Ok layers) /\
  pil_size (Reference.flat_image Mode_RGB 14 14 90)
  <> pil_size (Reference.flat_image Mode_RGB 16 16 255) /\
  (exists layers,
     @prepare Reference.opencv Reference.sign_20x20 Reference.pil
       Reference.uneven_example Reference.first_example
     = Ok layers).
Proof.
  split; [reflexivity | ].
  split; [eexists; vm_compute; reflexivity | ].
  split; [discriminate | ].
  eexists; vm_compute; reflexivity.
Qed.

(** ** Frame sequencing *)

Lemma forallb_py_range (f : Z -> bool) (n : Z) :
  forallb f (py_range n) = true -> forall i, 0 <= i < n -> f i = true.
Proof.
  intros Hall i Hi. rewrite forallb_forall in Hall. apply Hall.
  unfold py_range. apply in_map_iff. exists (Z.to_nat i).
  split; [lia | ]. apply in_seq. lia.
Qed.

Lemma py_range_lookup (n : Z) (i : nat) (x : Z) :
  py_range n !! i = Some x -> x = Z.of_nat i /\ 0 <= x < n.
Proof.
  unfold py_range. rewrite list_lookup_fmap.
  destruct (seq 0 (Z.to_nat n) !! i) as [k|] eqn:Hk; [ | discriminate].
  apply lookup_seq in Hk as [-> Hlt]. simpl. intros [= <-]. lia.
Qed.

Lemma py_range_length (n : Z) : 0 <= n -> Z.of_nat (length (py_range n)) = n.
Proof. intros Hn. unfold py_range. rewrite length_map, length_seq. lia. Qed.

(** The number of chunks [make_chunks] computes in binary64 is the exact
    ceiling of [L * fps / 1000], for the four frame rates offered and every
    length up to ten seconds. *)
Lemma chunk_count_table :
  forallb (fun fps =>
    let chunk_ms := F64.mul (F64.div (F64.of_Z 1) (F64.of_Z fps)) (F64.of_Z 1000) in
    forallb (fun L =>
      F64.ceil (F64.div (F64.of_Z L) chunk_ms) =? (L * fps + 999) / 1000)
      (py_range 10001))
    [30; 60; 120; 240] = true.
Proof. vm_compute. reflexivity. Qed.

Lemma chunk_ms_nonzero (fps : Z) :
  In fps [30; 60; 120; 240] ->
  F64.is_zero (F64.of_Z fps) = false /\
  F64.is_zero (F64.mul (F64.div (F64.of_Z 1) (F64.of_Z fps)) (F64.of_Z 1000)) = false.
Proof.
  intros [<- | [<- | [<- | [<- | []]]]]; vm_compute; split; reflexivity.
Qed.

Lemma number_of_chunks_exact (fps L : Z) :
  In fps [30; 60; 120; 240] -> 0 <= L <= 10000 ->
  F64.ceil (F64.div (F64.of_Z L)
              (F64.mul (F64.div (F64.of_Z 1) (F64.of_Z fps)) (F64.of_Z 1000)))
  = (L * fps + 999) / 1000.
Proof.
  intros Hfps HL. pose proof chunk_count_table as Htab.
  rewrite forallb_forall in Htab. specialize (Htab fps Hfps).
  cbv zeta in Htab. apply Z.eqb_eq.
  apply (forallb_py_range _ _ Htab L). lia.
Qed.

Section FrameSequence.

Context {seg : Type} `{AudioSegment seg} `{MoviePy seg} `{OpenCV}.

Lemma make_chunks_Ok (audio_segment : seg) (chunk_length : float) :
  F64.is_zero chunk_length = false ->
  make_chunks audio_segment chunk_length
  = Ok (map (fun i => seg_slice audio_segment
                        (F64.mul (F64.of_Z i) chunk_length)
                        (F64.mul (F64.of_Z (i + 1)) chunk_length))
            (py_range (F64.ceil (F64.div (F64.of_Z (seg_len audio_segment))
                                         chunk_length)))).
Proof. intros Hz. unfold make_chunks, py_truediv. rewrite Hz. reflexivity. Qed.

Lemma image_clips_sequence (cut_audio : seg) (img_foreground img_background : image)
    (fps : Z) :
  In fps [30; 60; 120; 240] ->
  0 <= seg_len cut_audio <= 10000 ->
  (forall i : Z, 0 <= i -> 1000 * i < seg_len cut_audio * fps ->
     is_Ok (encode_image
              (sound_array
                 (seg_slice cut_audio
                    (F64.mul (F64.of_Z i)
                       (F64.mul (F64.div (F64.of_Z 1) (F64.of_Z fps)) (F64.of_Z 1000)))
                    (F64.mul (F64.of_Z (i + 1))
                       (F64.mul (F64.div (F64.of_Z 1) (F64.of_Z fps)) (F64.of_Z 1000)))))
              img_foreground img_background true)) ->
  exists clips : list image_clip,
    image_clips cut_audio img_foreground img_background fps = Ok clips /\
    1000 * (Z.of_nat (length clips) - 1) < seg_len cut_audio * fps
      <= 1000 * Z.of_nat (length clips) /\
    forall (i : nat) (clip : image_clip), clips !! i = Some clip ->
      clip_duration clip = F64.div (F64.of_Z 1) (F64.of_Z fps) /\
      encode_image
        (sound_array
           (seg_slice cut_audio
              (F64.mul (F64.of_Z (Z.of_nat i))
                 (F64.mul (F64.div (F64.of_Z 1) (F64.of_Z fps)) (F64.of_Z 1000)))
              (F64.mul (F64.of_Z (Z.of_nat i + 1))
                 (F64.mul (F64.div (F64.of_Z 1) (F64.of_Z fps)) (F64.of_Z 1000)))))
        img_foreground img_background true
      = Ok (clip_frame clip).
Proof.
  intros Hfps HL Henc.
  destruct (chunk_ms_nonzero fps Hfps) as [Hz Hc].
  pose proof (number_of_chunks_exact fps (seg_len cut_audio) Hfps HL) as Hn.
  set (c := F64.mul (F64.div (F64.of_Z 1) (F64.of_Z fps)) (F64.of_Z 1000)) in *.
  set (n := (seg_len cut_audio * fps + 999) / 1000) in *.
  assert (Hbounds : 1000 * (n - 1) < seg_len cut_audio * fps <= 1000 * n).
  { subst n. generalize (seg_len cut_audio * fps). intros x.
    pose proof (Z.div_mod (x + 999) 1000 ltac:(lia)).
    pose proof (Z.mod_pos_bound (x + 999) 1000 ltac:(lia)). lia. }
  assert (Hfps0 : 0 < fps).
  { destruct Hfps as [<- | [<- | [<- | [<- | []]]]]; lia. }
  assert (Hn0 : 0 <= n) by nia.
  unfold image_clips, chunk_ms, py_truediv. rewrite Hz.
  change ((Ok (F64.div (F64.of_Z 1) (F64.of_Z fps)) ≫=
           (fun inv => Ok (F64.mul inv (F64.of_Z 1000)))) ≫= ?k)
    with (k c).
  cbv beta. rewrite (make_chunks_Ok cut_audio c Hc), Hn.
  match goal with
  | |- context [Ok ?l ≫= ?k] => change (Ok l ≫= k) with (k l)
  end.
  cbv beta.
  match goal with
  | |- context [mapM ?f ?l] => set (frame := f); set (chunks := l)
  end.
  assert (Hall : Forall (fun chunk => is_Ok (frame chunk)) chunks).
  { apply Forall_lookup_2. intros i chunk Hi. subst chunks.
    rewrite list_lookup_fmap in Hi.
    destruct (py_range n !! i) as [x|] eqn:Hx; [ | discriminate].
    apply py_range_lookup in Hx as [-> Hx]. injection Hi as <-.
    destruct (Henc (Z.of_nat i)) as [img Himg]; [lia | lia | ].
    exists {| clip_frame := img;
              clip_duration := F64.div (F64.of_Z 1) (F64.of_Z fps) |}.
    subst frame. cbv beta. rewrite Himg. reflexivity. }
  destruct (mapM_is_Ok frame chunks Hall) as [clips Hclips].
  exists clips. split; [exact Hclips | ].
  destruct (mapM_Ok_lookup frame chunks clips Hclips) as [Hlen Hlook].
  assert (Hlen' : Z.of_nat (length clips) = n).
  { rewrite Hlen. subst chunks. rewrite length_map. apply py_range_length, Hn0. }
  split; [rewrite Hlen'; exact Hbounds | ].
  intros i clip Hi.
  assert (Hi' : (i < length chunks)%nat).
  { rewrite <- Hlen. apply lookup_lt_Some in Hi. exact Hi. }
  destruct (lookup_lt_is_Some_2 chunks i Hi') as [chunk Hchunk].
  destruct (Hlook i chunk Hchunk) as (clip' & Hframe & Hclip').
  rewrite Hi in Hclip'. injection Hclip' as <-.
  subst chunks. rewrite list_lookup_fmap in Hchunk.
  destruct (py_range n !! i) as [x|] eqn:Hx; [ | discriminate].
  apply py_range_lookup in Hx as [-> Hx]. injection Hchunk as <-.
  subst frame. cbv beta in Hframe.
  apply bind_Ok in Hframe as (img & Himg & Hframe).
  simpl in Hframe. injection Hframe as <-.
  split; [reflexivity | exact Himg].
Qed.

End FrameSequence.


Lemma tone_chunks_encode (i : Z) :
  0 <= i -> 1000 * i < Reference.segment_len Reference.tone * 60 ->
  is_Ok (@encode_image Reference.opencv
           (@sound_array Reference.segment Reference.audio_segment
              (Reference.segment_slice Reference.tone
                 (F64.mul (F64.of_Z i)
                    (F64.mul (F64.div (F64.of_Z 1) (F64.of_Z 60)) (F64.of_Z 1000)))
                 (F64.mul (F64.of_Z (i + 1))
                    (F64.mul (F64.div (F64.of_Z 1) (F64.of_Z 60)) (F64.of_Z 1000)))))
           (Reference.grey 12 8 200) (Reference.grey 12 8 100) true).
Proof.
  intros Hi Hlt.
  assert (Hlen : Reference.segment_len Reference.tone = 1000)
    by (vm_compute; reflexivity).
  rewrite Hlen in Hlt.
  pose proof (forallb_py_range
    (fun i =>
       match @encode_image Reference.opencv
               (@sound_array Reference.segment Reference.audio_segment
                  (Reference.segment_slice Reference.tone
                     (F64.mul (F64.of_Z i)
                        (F64.mul (F64.div (F64.of_Z 1) (F64.of_Z 60)) (F64.of_Z 1000)))
                     (F64.mul (F64.of_Z (i + 1))
                        (F64.mul (F64.div (F64.of_Z 1) (F64.of_Z 60)) (F64.of_Z 1000)))))
               (Reference.grey 12 8 200) (Reference.grey 12 8 100) true
       with Ok _ => true | Raise _ => false end) 60) as Hcheck.
  specialize (Hcheck ltac:(vm_compute; reflexivity) i ltac:(lia)).
  cbv beta in Hcheck.
  match type of Hcheck with
  | match ?m with _ => _ end = true => destruct m as [img|e]
  end; [exists img; reflexivity | discriminate].
Qed.



Section AudioTrack.

Context {seg : Type} `{AudioSegment seg} `{MoviePy seg} `{OpenCV}.

(** What [build_video] returns carries the clip read back from the export
    of the whole segment. *)
Lemma build_video_Ok (cut_audio : seg) (img_foreground img_background : image)
    (fps : Z) (v : video) :
  build_video cut_audio img_foreground img_background fps = Ok v ->
  exists audio_writer,
    export_wav cut_audio = Ok audio_writer /\
    AudioFileClip audio_writer = Ok (video_audio v) /\
    image_clips cut_audio img_foreground img_background fps = Ok (video_frames v) /\
    video_frames v <> [] /\ video_fps v = fps.
Proof.
  intros Hv. unfold build_video in Hv.
  apply bind_Ok in Hv as (clips & Hclips & Hv).
  apply bind_Ok in Hv as (audio_writer & Hwav & Hv).
  apply bind_Ok in Hv as (audio & Haudio & Hv).
  apply bind_Ok in Hv as (clips' & Hcat & Hv).
  injection Hv as <-. cbn [video_audio video_frames video_fps].
  exists audio_writer.
  destruct clips as [|clip clips]; [discriminate | ].
  injection Hcat as <-. repeat split; auto.
Qed.

End AudioTrack.

(** C8, as amended. The audio track of whatever video [build_video]
    returns is the clip [AudioFileClip] reads back from the WAV file the
    whole segment was exported to, once, and this video is what
    [write_videofile] is given. The track is the same whatever the frame
    rate and the layers, and no chunk takes part in it. When the image clips
    are built and the export or the reading back fails, so does
    [build_video]; for a frame rate among those offered and a clip of at
    most ten seconds, not empty, every chunk of which encodes, and whose
    export is read back, [build_video] returns a video with that track. *)
Theorem build_video_audio {seg : Type} `{AudioSegment seg} `{MoviePy seg} `{OpenCV}
    (cut_audio : seg) (img_foreground img_background : image) :
  (forall (fps : Z) (v : video),
     build_video cut_audio img_foreground img_background fps = Ok v ->
     (exists audio_writer : wav_file,
        export_wav cut_audio = Ok audio_writer /\
        AudioFileClip audio_writer = Ok (video_audio v)) /\
     render_video cut_audio img_foreground img_background fps
     = write_videofile (video_frames v) (video_audio v) fps) /\
  (forall (fps fps' : Z) (img_foreground' img_background' : image) (v v' : video),
     build_video cut_audio img_foreground img_background fps = Ok v ->
     build_video cut_audio img_foreground' img_background' fps' = Ok v' ->
     video_audio v = video_audio v') /\
  (forall (fps : Z) (clips : list image_clip) (e : exn),
     image_clips cut_audio img_foreground img_background fps = Ok clips ->
     export_wav cut_audio = Raise e \/
     (exists audio_writer : wav_file,
        export_wav cut_audio = Ok audio_writer /\
        AudioFileClip audio_writer = Raise e) ->
     build_video cut_audio img_foreground img_background fps = Raise e) /\
  (forall (fps : Z) (audio_writer : wav_file) (audio : audio_clip),
     In fps [30; 60; 120; 240] ->
     0 < seg_len cut_audio <= 10000 ->
     (forall i : Z, 0 <= i -> 1000 * i < seg_len cut_audio * fps ->
        is_Ok (encode_image
                 (sound_array
                    (seg_slice cut_audio
                       (F64.mul (F64.of_Z i)
                          (F64.mul (F64.div (F64.of_Z 1) (F64.of_Z fps)) (F64.of_Z 1000)))
                       (F64.mul (F64.of_Z (i + 1))
                          (F64.mul (F64.div (F64.of_Z 1) (F64.of_Z fps)) (F64.of_Z 1000)))))
                 img_foreground img_background true)) ->
     export_wav cut_audio = Ok audio_writer ->
     AudioFileClip audio_writer = Ok audio ->
     exists v : video,
       build_video cut_audio img_foreground img_background fps = Ok v /\
       video_audio v = audio).
Proof.
  split; [ | split; [ | split]].
  - intros fps v Hv. split.
    + destruct (build_video_Ok _ _ _ _ _ Hv) as (w & Hw & Ha & _). eauto.
    + unfold render_video. rewrite Hv. reflexivity.
  - intros fps fps' fg' bg' v v' Hv Hv'.
    destruct (build_video_Ok _ _ _ _ _ Hv) as (w & Hw & Ha & _).
    destruct (build_video_Ok _ _ _ _ _ Hv') as (w' & Hw' & Ha' & _).
    rewrite Hw in Hw'. injection Hw' as <-.
    rewrite Ha in Ha'. injection Ha' as ->. reflexivity.
  - intros fps clips e Hclips Hfail. unfold build_video. rewrite Hclips. simpl.
    destruct Hfail as [Hw | (w & Hw & Ha)].
    + rewrite Hw. reflexivity.
    + rewrite Hw. simpl. rewrite Ha. reflexivity.
  - intros fps audio_writer audio Hfps HL Henc Hw Ha.
    assert (HL' : 0 <= seg_len cut_audio <= 10000) by lia.
    destruct (image_clips_sequence cut_audio img_foreground img_background fps
                Hfps HL' Henc) as (clips & Hclips & Hcount & _).
    assert (Hfps0 : 0 < fps).
    { destruct Hfps as [<- | [<- | [<- | [<- | []]]]]; lia. }
    destruct clips as [|clip clips]; [simpl in Hcount; nia | ].
    eexists. split.
    + unfold build_video. rewrite Hclips. simpl. rewrite Hw. simpl.
      rewrite Ha. reflexivity.
    + reflexivity.
Qed.

Lemma build_video_audio_witness :
  exists v : @video Reference.segment Reference.moviepy,
    @build_video Reference.segment Reference.audio_segment Reference.moviepy
      Reference.opencv Reference.tone
      (Reference.grey 12 8 200) (Reference.grey 12 8 100) 60 = Ok v /\
    video_audio v = Reference.samples Reference.tone.
Proof.
  apply (proj2 (proj2 (proj2
           (@build_video_audio Reference.segment Reference.audio_segment
              Reference.moviepy Reference.opencv Reference.tone
              (Reference.grey 12 8 200) (Reference.grey 12 8 100))))
           60 Reference.tone (Reference.samples Reference.tone)).
  - simpl. tauto.
  - vm_compute. split; [reflexivity | discriminate].
  - exact tone_chunks_encode.
  - reflexivity.
  - reflexivity.
Defined.

(** C8, as stated, fails with a reader that decodes as moviepy's does, at
    44100 frames a second on two channels: the track attached to the video
    of a tenth of a second of sound, 20 samples at 200 a second, has 8820
    samples, read back from the export and not the segment's own. *)
Lemma attached_audio_is_read_back :
  length (@get_array_of_samples Reference.segment Reference.audio_segment
            Reference.click) = 20%nat /\
  exists v : @video Reference.segment Reference.ffmpeg_reader,
    @build_video Reference.segment Reference.audio_segment Reference.ffmpeg_reader
      Reference.opencv Reference.click
      (Reference.grey 12 8 200) (Reference.grey 12 8 100) 60 = Ok v /\
    video_audio v = Reference.decode_44100_stereo Reference.click /\
    Z.of_nat (length (@audio_samples Reference.segment Reference.ffmpeg_reader
                        (video_audio v))) = 8820.
Proof.
  split; [reflexivity | ].
  eexists. split; [vm_compute; reflexivity | ].
  split; vm_compute; reflexivity.
Qed.

(** ** Further properties of the pipeline *)

Section ProcessSmall.

Context `{OpenCV} `{Assets}.

Lemma resized_dims_small (w h : Z) :
  w <= 500 -> h <= 500 -> resized_dims w h = (w, h).
Proof.
  intros Hw Hh.
  destruct (resized_dims_halvings w h) as (k & Hk & _ & _ & Hmin).
  destruct k as [|k].
  - rewrite Hk. cbn. rewrite !Z.quot_1_r. reflexivity.
  - destruct (Hmin 0%nat ltac:(lia)) as [Hbig | Hbig];
      cbn in Hbig; rewrite Z.quot_1_r in Hbig; lia.
Qed.

End ProcessSmall.

(** X1. An image of at most 500 by 500 pixels is not resized: the loop of
    [process_image] does not run, [cv2.resize] to the image's own size
    returns it, and whatever [process_image] returns has the image itself
    as its first component, and as its foreground when there is no mask. *)
Theorem small_image_not_resized `{OpenCV} `{Assets}
    (img : image) (img_mask : option image) :
  0 < width img <= 500 -> 0 < height img <= 500 ->
  resized_dims (width img) (height img) = (width img, height img) /\
  cv2_resize img (width img) (height img) = Ok img /\
  forall img' fg bg : image,
    process_image img img_mask = Ok (img', fg, bg) ->
    img' = img /\ (img_mask = None -> fg = img).
Proof.
  intros Hw Hh.
  assert (Hdims : resized_dims (width img) (height img) = (width img, height img))
    by (apply resized_dims_small; lia).
  assert (Hres : cv2_resize img (width img) (height img) = Ok img).
  { unfold cv2_resize.
    destruct (width img <=? 0) eqn:E1; [lia | ].
    destruct (height img <=? 0) eqn:E2; [lia | ].
    cbn [orb]. rewrite !Z.eqb_refl. reflexivity. }
  split; [exact Hdims | ]. split; [exact Hres | ].
  intros img' fg bg Hp.
  apply process_image_Ok in Hp. cbv zeta in Hp. rewrite Hdims in Hp.
  cbn [fst snd] in Hp. destruct Hp as (Himg' & bg0 & Hsplit & _).
  rewrite Hres in Himg'. injection Himg' as <-.
  split; [reflexivity | ].
  intros ->. unfold split_layers in Hsplit. injection Hsplit as <- _. reflexivity.
Qed.

Lemma small_image_not_resized_witness :
  resized_dims (width (Reference.grey 14 14 9)) (height (Reference.grey 14 14 9))
  = (width (Reference.grey 14 14 9), height (Reference.grey 14 14 9)) /\
  @cv2_resize Reference.opencv (Reference.grey 14 14 9)
    (width (Reference.grey 14 14 9)) (height (Reference.grey 14 14 9))
  = Ok (Reference.grey 14 14 9) /\
  forall img' fg bg : image,
    @process_image Reference.opencv Reference.sign_20x20
      (Reference.grey 14 14 9) None = Ok (img', fg, bg) ->
    img' = Reference.grey 14 14 9 /\
    (@None image = None -> fg = Reference.grey 14 14 9).
Proof.
  apply (@small_image_not_resized Reference.opencv Reference.sign_20x20
           (Reference.grey 14 14 9) None).
  - vm_compute. split; [reflexivity | discriminate].
  - vm_compute. split; [reflexivity | discriminate].
Defined.

Section FrameShape.

Context `{OpenCV}.

Lemma draw_segments_shape (indices : list nat) (img out : image) (pos_x pos_y : Z)
    (sx sy : float) (amplitudes : list float) (h w : Z) :
  has_shape img h w ->
  draw_segments indices img pos_x pos_y sx sy amplitudes = Ok out ->
  has_shape out h w.
Proof.
  revert img. induction indices as [|i indices IH]; intros img Himg Hd.
  - injection Hd as <-. exact Himg.
  - cbn [draw_segments] in Hd.
    apply bind_Ok in Hd as (p1 & _ & Hd).
    apply bind_Ok in Hd as (p2 & _ & Hd).
    apply bind_Ok in Hd as (img1 & Hline & Hd).
    apply (IH img1); [ | exact Hd].
    unfold cv2_line in Hline.
    destruct (c_point p1 && c_point p2); [ | discriminate].
    injection Hline as <-. unfold draw_line.
    apply has_shape_imap2. exact Himg.
Qed.

End FrameShape.

(** X2. Every frame [encode_image] returns has the shape of the two layers,
    with or without the plot. *)
Theorem encode_image_keeps_shape `{OpenCV}
    (amplitudes : list float) (img_foreground img_background : image)
    (should_plot : bool) (h w : Z) :
  has_shape img_foreground h w -> has_shape img_background h w ->
  forall out : image,
    encode_image amplitudes img_foreground img_background should_plot = Ok out ->
    has_shape out h w.
Proof.
  intros Hfg Hbg out Hout.
  destruct (brightness_factor amplitudes) as [factor|e] eqn:Hf.
  - rewrite (encode_image_merged _ _ _ _ h w factor Hf Hfg Hbg) in Hout.
    assert (Hm : has_shape (zip_px add_px (adjust_brightness img_foreground factor)
                              img_background) h w).
    { apply has_shape_zip_px; [ | exact Hbg].
      apply adjust_brightness_shape. exact Hfg. }
    destruct should_plot.
    + unfold draw_horz_sound in Hout.
      apply bind_Ok in Hout as (step & _ & Hout).
      eapply draw_segments_shape; [exact Hm | exact Hout].
    + injection Hout as <-. exact Hm.
  - unfold encode_image in Hout. rewrite Hf in Hout. discriminate.
Qed.

Lemma encode_image_keeps_shape_witness :
  has_shape
    (match @encode_image Reference.opencv [f_0_3; F64.opp f_0_3; f_0_0; f_0_3]
             (Reference.grey 12 8 200) (Reference.grey 12 8 100) true with
     | Ok out => out
     | Raise _ => []
     end) 12 8.
Proof.
  apply (@encode_image_keeps_shape Reference.opencv
           [f_0_3; F64.opp f_0_3; f_0_0; f_0_3]
           (Reference.grey 12 8 200) (Reference.grey 12 8 100) true 12 8).
  - apply has_shape_tabulate; lia.
  - apply has_shape_tabulate; lia.
  - vm_compute. reflexivity.
Defined.

(** X3. Without an uploaded image, the button not pressed, [load_image] stops
    the run, with or without a mask, and nothing is processed. *)
Theorem load_image_needs_image `{OpenCV} `{Assets} `{PIL} `{Examples} (ui : sidebar) :
  button_use_example ui = false ->
  uploaded_img_file ui = None ->
  load_image ui = Raise StopException /\ prepare ui = Raise StopException.
Proof.
  intros Hb Hi.
  assert (Hl : load_image ui = Raise StopException).
  { unfold load_image, choose_images. rewrite Hb, Hi.
    destruct (uploaded_img_mask ui); reflexivity. }
  split; [exact Hl | ]. unfold prepare. rewrite Hl. reflexivity.
Qed.

Lemma load_image_needs_image_witness :
  @load_image Reference.pil Reference.no_examples
    (Reference.uploads None (Some (Reference.flat_image Mode_RGB 14 14 255)))
  = Raise StopException /\
  @prepare Reference.opencv Reference.sign_20x20 Reference.pil Reference.no_examples
    (Reference.uploads None (Some (Reference.flat_image Mode_RGB 14 14 255)))
  = Raise StopException.
Proof.
  apply (@load_image_needs_image Reference.opencv Reference.sign_20x20
           Reference.pil Reference.no_examples); reflexivity.
Defined.

(** X4. A selection of no length (the two ends of the slider on one second)
    gives no chunk and no image clip, and [build_video] returns no video:
    it raises, in the export, in the reading back or in the concatenation
    of no clips. *)
Theorem empty_selection_no_video {seg : Type} `{AudioSegment seg} `{MoviePy seg} `{OpenCV}
    (cut_audio : seg) (img_foreground img_background : image) (fps : Z) :
  In fps [30; 60; 120; 240] ->
  seg_len cut_audio = 0 ->
  image_clips cut_audio img_foreground img_background fps = Ok [] /\
  exists e : exn,
    build_video cut_audio img_foreground img_background fps = Raise e.
Proof.
  intros Hfps Hlen.
  destruct (image_clips_sequence cut_audio img_foreground img_background fps Hfps)
    as (clips & Hclips & Hcount & _).
  - lia.
  - intros i Hi Hlt. rewrite Hlen in Hlt. lia.
  - rewrite Hlen in Hcount.
    destruct clips as [|clip clips]; [ | cbn [length] in Hcount; lia].
    split; [exact Hclips | ].
    unfold build_video. rewrite Hclips. simpl.
    destruct (export_wav cut_audio) as [w|e]; [ | eexists; reflexivity].
    simpl. destruct (AudioFileClip w) as [a|e]; eexists; reflexivity.
Qed.

Lemma empty_selection_no_video_witness :
  @image_clips Reference.segment Reference.audio_segment Reference.opencv
    {| Reference.frame_rate := 200; Reference.samples := [] |}
    (Reference.grey 12 8 200) (Reference.grey 12 8 100) 30 = Ok [] /\
  exists e : exn,
    @build_video Reference.segment Reference.audio_segment Reference.moviepy
      Reference.opencv {| Reference.frame_rate := 200; Reference.samples := [] |}
      (Reference.grey 12 8 200) (Reference.grey 12 8 100) 30 = Raise e.
Proof.
  apply (@empty_selection_no_video Reference.segment Reference.audio_segment
           Reference.moviepy Reference.opencv).
  - simpl. tauto.
  - vm_compute. reflexivity.
Defined.

Section SignRegion.

Context `{OpenCV} `{Assets}.

Lemma add_weighted_nothing (p : pixel) : u8_px p -> add_weighted_px p (0, 0, 0) = p.
Proof.
  destruct p as [[r g] b]. intros (Hr & Hg & Hb). cbn in Hr, Hg, Hb.
  unfold u8 in *. unfold add_weighted_px, add_weighted_u8.
  rewrite !Z.add_0_r.
  rewrite !(Z.mul_comm 2), !Z.div_mul, !Z.mod_mul by lia.
  cbn [Z.eqb orb]. f_equal; [f_equal | ]; lia.
Qed.

Lemma set_slice_outside (a out : gray) (r0 r1 c0 c1 : Z) (v : gray) (y x : nat) :
  set_slice a r0 r1 c0 c1 v = Ok out ->
  Z.of_nat y < (slice_range (height a) r0 r1).1 \/
  (slice_range (height a) r0 r1).1 + (slice_range (height a) r0 r1).2 <= Z.of_nat y \/
  Z.of_nat x < (slice_range (width a) c0 c1).1 \/
  (slice_range (width a) c0 c1).1 + (slice_range (width a) c0 c1).2 <= Z.of_nat x ->
  px_at out y x = px_at a y x.
Proof.
  unfold set_slice.
  destruct (slice_range (height a) r0 r1) as [rs rl].
  destruct (slice_range (width a) c0 c1) as [cs cl]. cbn [fst snd].
  destruct (broadcastable (height v) rl && broadcastable (width v) cl);
    [ | discriminate].
  intros [= <-] Hout. rewrite px_at_imap2.
  destruct (px_at a y x) as [old|]; [ | reflexivity]. simpl. f_equal.
  destruct ((rs <=? Z.of_nat y) && (Z.of_nat y <? rs + rl)
            && (cs <=? Z.of_nat x) && (Z.of_nat x <? cs + cl)) eqn:Hin;
    [ | reflexivity].
  repeat (apply andb_prop in Hin as [Hin ?]). lia.
Qed.

End SignRegion.

(** X5. The sign changes the background only where it is written: a pixel of
    an 8-bit background outside the rectangle the two slices select is the
    same after [add_sign]. *)
Theorem add_sign_outside_region `{OpenCV} `{Assets}
    (img_background out : image) (img_height img_width rs rl cs cl : Z) :
  1 <= img_height -> 1 <= img_width ->
  has_shape img_background img_height img_width ->
  u8_image img_background ->
  slice_range img_height (img_height - adjusted_height - 10) (img_height - 10)
  = (rs, rl) ->
  slice_range img_width (img_width - adjusted_width - 10) (img_width - 10)
  = (cs, cl) ->
  add_sign img_background img_height img_width = Ok out ->
  forall (y x : nat) (p : pixel),
    px_at img_background y x = Some p ->
    Z.of_nat y < rs \/ rs + rl <= Z.of_nat y \/
    Z.of_nat x < cs \/ cs + cl <= Z.of_nat x ->
    px_at out y x = Some p.
Proof.
  intros Hh Hw Hbg Hu8 Hr Hc Hadd y x p Hp Hout.
  unfold add_sign in Hadd.
  apply bind_Ok in Hadd as (glyph & _ & Hadd).
  apply bind_Ok in Hadd as (canvas & Hplace & Hadd).
  injection Hadd as <-.
  assert (Hz : has_shape (np_zeros2 img_height img_width) img_height img_width)
    by (apply has_shape_tabulate; lia).
  assert (Hyx : Z.of_nat y < img_height /\ Z.of_nat x < img_width).
  { apply (px_at_shape img_background img_height img_width y x Hbg).
    rewrite Hp. eauto. }
  assert (Hcanvas : px_at canvas y x = Some 0).
  { unfold place_sign in Hplace.
    rewrite (set_slice_outside _ _ _ _ _ _ _ y x Hplace).
    - unfold np_zeros2. apply px_at_tabulate; lia.
    - rewrite (has_shape_width _ _ _ Hz) by lia.
      destruct Hz as [-> _]. rewrite Hr, Hc. exact Hout. }
  unfold cv2_addWeighted. rewrite px_at_zip_px, Hp, px_at_map_px, Hcanvas.
  simpl. f_equal. apply add_weighted_nothing.
  eapply u8_image_px_at; eassumption.
Qed.

Lemma add_sign_outside_region_witness :
  px_at (match @add_sign Reference.opencv Reference.sign_20x20
                 (Reference.grey 14 14 90) 14 14 with
         | Ok out => out
         | Raise _ => []
         end) 0 5 = Some (90, 90, 90).
Proof.
  apply (@add_sign_outside_region Reference.opencv Reference.sign_20x20
           (Reference.grey 14 14 90) _ 14 14 1 3 1 3).
  - lia.
  - lia.
  - apply has_shape_tabulate; lia.
  - apply u8_image_grey. unfold u8. lia.
  - vm_compute. reflexivity.
  - vm_compute. reflexivity.
  - vm_compute. reflexivity.
  - reflexivity.
  - left. cbn. lia.
Defined.

(** X6. [draw_horz_sound] draws in place: run on the store, it leaves every
    array but the one it is given as it was, and that one holds, when the
    call returns, what the drawing on its contents gives; when the call
    raises, the same exception is raised on the contents. *)
Theorem draw_horz_sound_in_place `{OpenCV}
    (s : gmap Heap.loc Heap.array) (img : Heap.loc) (a : image)
    (amplitudes : list float) :
  s !! img = Some (Heap.U8 a) ->
  exists (r : result unit) (s' : gmap Heap.loc Heap.array),
    Heap.draw_horz_sound img amplitudes s = (r, s') /\
    (forall l, l <> img -> s' !! l = s !! l) /\
    (forall a', draw_horz_sound a amplitudes = Ok a' ->
       r = Ok tt /\ s' !! img = Some (Heap.U8 a')) /\
    (forall e, draw_horz_sound a amplitudes = Raise e -> r = Raise e).
Proof.
  intros Himg.
  destruct (draw_horz_sound_run s img a amplitudes Himg)
    as (r & s' & Hrun & Hother & Hres).
  exists r, s'. split; [exact Hrun | ]. split; [exact Hother | ].
  split.
  - intros a' Ha. rewrite Ha in Hres. exact Hres.
  - intros e He. rewrite He in Hres. destruct Hres as [-> _]. reflexivity.
Qed.

Lemma draw_horz_sound_in_place_witness :
  exists (r : result unit) (s' : gmap Heap.loc Heap.array),
    @Heap.draw_horz_sound Reference.opencv 1%positive
      [f_0_3; F64.opp f_0_3; f_0_0; f_0_3] Reference.two_layers = (r, s') /\
    (forall l, l <> 1%positive -> s' !! l = Reference.two_layers !! l) /\
    (forall a', @draw_horz_sound Reference.opencv (Reference.grey 60 40 200)
                  [f_0_3; F64.opp f_0_3; f_0_0; f_0_3] = Ok a' ->
       r = Ok tt /\ s' !! 1%positive = Some (Heap.U8 a')) /\
    (forall e, @draw_horz_sound Reference.opencv (Reference.grey 60 40 200)
                 [f_0_3; F64.opp f_0_3; f_0_0; f_0_3] = Raise e -> r = Raise e).
Proof.
  apply (@draw_horz_sound_in_place Reference.opencv Reference.two_layers).
  apply lookup_insert_eq.
Defined.
